(** * go-log: a leveled logger (log.go)

    A shallow embedding of [log.go] and the properties of its line format,
    severity filter, error handling and frame.

    Conventions of the embedding:
    - Go's [int] (also [Level] and [Flags]) is a [Z] in the 64-bit range,
      with the wrap-around of [+], [-], [*] and unary minus written out
      ([wrap]); [/] and [%] are Go's truncated division ([Z.quot],
      [Z.rem]);
    - a Go [string] and a [[]byte] are both sequences of bytes: [bytes],
      a list of [ascii];
    - a call that panics yields [Panic]; the deferred [Unlock] still runs;
    - one call runs alone (a single goroutine): [Lock] and [Unlock] are
      recorded in the trace of effects but never block. *)

From Stdlib Require Import ZArith Ascii String Bool Lia.
From stdpp Require Import base option list gmap.

Local Open Scope Z_scope.

(** ** Machine integers and bytes *)

(** A sequence of bytes. *)
Abbreviation bytes := (list ascii).

(** A string literal as a byte sequence. *)
Definition str (s : string) : bytes := list_ascii_of_string s.

Definition int_min : Z := - 2 ^ 63.
Definition int_max : Z := 2 ^ 63 - 1.

(** The values of Go's [int]. *)
Definition is_int (z : Z) : Prop := int_min <= z <= int_max.

(** Two's complement wrap-around of a 64-bit [int]. *)
Definition wrap (z : Z) : Z := (z + 2 ^ 63) mod 2 ^ 64 - 2 ^ 63.

Definition int_add (x y : Z) : Z := wrap (x + y).
Definition int_sub (x y : Z) : Z := wrap (x - y).
Definition int_mul (x y : Z) : Z := wrap (x * y).
Definition int_neg (x : Z) : Z := wrap (- x).
(** [x / y] and [x % y] for a positive constant [y]: no overflow. *)
Definition int_quo (x y : Z) : Z := Z.quot x y.
Definition int_rem (x y : Z) : Z := Z.rem x y.

(** The conversion [byte(x)] keeps the low eight bits. *)
Definition byte_of_int (z : Z) : ascii := ascii_of_N (Z.to_N (z mod 256)).

Definition zero_byte : ascii := byte_of_int 0.

(** ** [itoa] *)

(** The loop of [itoa]: [b] is the 20-byte array, [bp] the write position.
    An iteration at [bp = 0] writes [b[0]] and leaves [bp = -1], and the
    next access [b[bp]] (in the loop or after it) panics. *)
Fixpoint itoa_loop (bp : nat) (b : bytes) (i wid : Z)
  : option (bytes * nat * Z) :=
  if (10 <=? i) || (1 <? wid) then
    match bp with
    | O => None
    | S bp' =>
        let wid' := int_sub wid 1 in
        let q := int_quo i 10 in
        let b' := <[bp := byte_of_int (int_sub (int_add 48 i) (int_mul q 10))]> b in
        itoa_loop bp' b' q wid'
    end
  else Some (b, bp, i).

(** [itoa(&buf, i, wid)]: the new contents of [buf], or [None] for a
    panic (index out of range). *)
Definition itoa (buf : bytes) (i wid : Z) : option bytes :=
  match itoa_loop 19 (replicate 20 zero_byte) i wid with
  | Some (b, bp, i') =>
      Some (buf ++ drop bp (<[bp := byte_of_int (int_add 48 i')]> b))
  | None => None
  end.

(** ** Decimal notation, as the format is described *)

(** The character of a decimal digit. *)
Definition digit (d : Z) : ascii := ascii_of_N (Z.to_N (48 + d)).

Fixpoint decimal_fuel (fuel : nat) (n : Z) : bytes :=
  match fuel with
  | O => [digit n]
  | S f =>
      if n <? 10 then [digit n]
      else decimal_fuel f (n / 10) ++ [digit (n mod 10)]
  end.

(** The bare decimal notation of a natural number [n]. *)
Definition decimal (n : Z) : bytes := decimal_fuel (Z.to_nat (Z.log2 n)) n.

(** [d] padded with zeros on the left to at least [w] characters. *)
Definition zero_pad (w : Z) (d : bytes) : bytes :=
  replicate (Z.to_nat w - length d)%nat "0"%char ++ d.

(** The field of width [w] holding [n]. *)
Definition field (w : Z) (n : Z) : bytes := zero_pad w (decimal n).

(** The value of a sequence of decimal digits. *)
Definition digits_value (d : bytes) : Z :=
  fold_left (fun acc c => 10 * acc + (Z.of_N (N_of_ascii c) - 48)) d 0.


(** ** Levels, labels and flags *)

(** [type Level int] and [type Flags int]. *)
Abbreviation Level := Z.
Abbreviation Flags := Z.

Definition LevelDebug : Z := 0.
Definition LevelInfo : Z := 1.
Definition LevelWarn : Z := 2.
Definition LevelError : Z := 3.

(** [type LevelStrings [5]string]: an array of exactly five strings. *)
Record LevelStrings : Type := mkLevelStrings {
  ls0 : bytes; ls1 : bytes; ls2 : bytes; ls3 : bytes; ls4 : bytes
}.

(** The indexing [pre[i]]; [None] is the run-time panic out of range. *)
Definition index (p : LevelStrings) (i : Level) : option bytes :=
  match i with
  | 0 => Some (ls0 p)
  | 1 => Some (ls1 p)
  | 2 => Some (ls2 p)
  | 3 => Some (ls3 p)
  | 4 => Some (ls4 p)
  | _ => None
  end.

(** The composite literal gives four of the five elements; the fifth is
    the zero value of [string]. *)
Definition DefaultLevelStrings : LevelStrings :=
  mkLevelStrings (str "DEBUG") (str "INFO ") (str "WARN ") (str "ERROR") (str "").

Definition FlagLongPath : Z := Z.shiftl 1 0.
Definition FlagShortPath : Z := Z.shiftl 1 1.

(** ** The collaborators: clock, call stack, sink *)

(** A [time.Time] as [Clock], [Date] and [Zone] show it; [offset] is in
    seconds east of UTC. *)
Record Time : Type := mkTime {
  year : Z; month : Z; day : Z;
  hour : Z; minute : Z; second : Z;
  offset : Z
}.

(** What the run time answers during one call: the wall clock, and
    [runtime.Caller(skip)] as the file and line, or [None] for [ok = false]. *)
Record Env : Type := mkEnv {
  now : Time;
  Caller : Z -> option (bytes * Z)
}.

(** Go's [error], by its message. *)
Definition error : Type := bytes.

(** [io.Writer]: the sink after the call, the count and the failure. *)
Class Writer (W : Type) : Type :=
  Write : W -> bytes -> W * (Z * option error).

(** An in-memory sink that can be broken: a broken sink takes nothing and
    reports a failure. *)
Record MemSink : Type := mkMemSink { contents : bytes; broken : bool }.

#[global] Instance MemSink_Writer : Writer MemSink :=
  fun k p =>
    if broken k then (k, (0, Some (str "sink is closed")))
    else (mkMemSink (contents k ++ p) false, (Z.of_nat (length p), None)).

(** ** The logger and the effects of a call *)

(** A reference to a sink. *)
Abbreviation loc := nat.

(** [type Logger struct]; the embedded mutex has no state of its own
    here, see [ELock] and [EUnlock]. *)
Record Logger : Type := mkLogger {
  out : loc;
  buf : bytes;
  min : Level;
  pre : LevelStrings;
  flag : Flags
}.

Definition New (out : loc) (minLevel : Level) (flags : Flags)
  (pre : option LevelStrings)
  : Logger :=
  let pre := match pre with None => DefaultLevelStrings | Some p => p end in
  {| out := out; buf := []; min := minLevel; flag := flags; pre := pre |}.

Inductive event : Type :=
| ENow
| ELock
| EUnlock
| ECaller (skip : Z)
| EWrite (o : loc) (p : bytes).

Inductive result (A : Type) : Type :=
| Ok (a : A)
| Panic.
Arguments Ok {A} a.
Arguments Panic {A}.

(** The payloads of the sink writes of a trace, in order. *)
Fixpoint writes (t : list event) : list bytes :=
  match t with
  | [] => []
  | EWrite _ p :: t' => p :: writes t'
  | _ :: t' => writes t'
  end.

(** The number of caller-location lookups of a trace. *)
Fixpoint lookups (t : list event) : nat :=
  match t with
  | [] => O
  | ECaller _ :: t' => S (lookups t')
  | _ :: t' => lookups t'
  end.

Section Model.
Context {W : Type} {W_Writer : Writer W}.

(** The logger, the sinks it can refer to, and the effects so far. *)
Record World : Type := mkWorld {
  logger : Logger;
  heap : gmap loc W;
  trace : list event
}.

(** State and panics. *)
Definition M (A : Type) : Type := World -> result A * World.

Definition ret {A} (a : A) : M A := fun w => (Ok a, w).

Definition bind {A B} (m : M A) (k : A -> M B) : M B :=
  fun w =>
    match m w with
    | (Ok a, w') => k a w'
    | (Panic, w') => (Panic, w')
    end.

Definition panic {A} : M A := fun w => (Panic, w).

(** [defer d] around [body]: [d] runs when [body] returns or panics. *)
Definition defer {A} (d : M unit) (body : M A) : M A :=
  fun w =>
    let '(r, w1) := body w in
    match d w1 with
    | (Ok _, w2) => (r, w2)
    | (Panic, w2) => (Panic, w2)
    end.

Definition emit (ev : event) : M unit :=
  fun w => (Ok tt, mkWorld (logger w) (heap w) (trace w ++ [ev])).

Definition get_logger : M Logger := fun w => (Ok (logger w), w).

Definition set_buf (b : bytes) : M unit :=
  fun w =>
    let l := logger w in
    (Ok tt, mkWorld (mkLogger (out l) b (min l) (pre l) (flag l)) (heap w) (trace w)).

(** A run-time check: [None] panics. *)
Definition check {A} (o : option A) : M A :=
  match o with
  | Some a => ret a
  | None => panic
  end.
End Model.

Arguments World W : clear implicits.
Arguments M W A : clear implicits.

Notation "x <- m ;; k" := (bind m (fun x => k))
  (at level 100, m at next level, right associativity).
Notation "m ;;; k" := (bind m (fun _ => k))
  (at level 100, right associativity).

(** ** The path shortening of [header] *)

Definition is_sep (c : ascii) : bool := Ascii.eqb c "/"%char.

(** The loop [for i := len(file) - 1; i > 0; i--]: the result is the new
    value of [short]; [None] is an index out of range. *)
Fixpoint short_loop (file : bytes) (i : nat) : option bytes :=
  match i with
  | O => Some file
  | S j =>
      match file !! i with
      | None => None
      | Some c =>
          if is_sep c then Some (drop (i + 1) file)
          else short_loop file j
      end
  end.

(** For the empty path the loop starts at [-1] and does not run, as from
    [0]. *)
Definition short_path (file : bytes) : option bytes :=
  short_loop file (length file - 1)%nat.

(** ** Formatted printing, from the documentation of package [fmt] *)

(** The arguments considered: strings, integers, booleans and [nil]. *)
Inductive value : Type :=
| VString (s : bytes)
| VInt (i : Z)
| VBool (b : bool)
| VNil.

Definition is_string (v : value) : bool :=
  match v with
  | VString _ => true
  | _ => false
  end.

(** An integer in base ten, with a minus sign when negative. *)
Definition fmt_int (i : Z) : bytes :=
  if i <? 0 then "-"%char :: decimal (- i) else decimal i.

(** The default format of an operand (verb [%v]). *)
Definition printArg (v : value) : bytes :=
  match v with
  | VString s => s
  | VInt i => fmt_int i
  | VBool true => str "true"
  | VBool false => str "false"
  | VNil => str "<nil>"
  end.

(** [doPrint]: a space is added between operands when neither is a
    string. *)
Fixpoint doPrint (acc : bytes) (prevString : bool) (argNum : nat) (a : list value)
  : bytes :=
  match a with
  | [] => acc
  | arg :: rest =>
      let isString := is_string arg in
      let acc :=
        if (0 <? argNum)%nat && negb isString && negb prevString
        then acc ++ str " " else acc in
      doPrint (acc ++ printArg arg) isString (S argNum) rest
  end.

(** [fmt.Sprint]. *)
Definition Sprint (a : list value) : bytes := doPrint [] false O a.

(** The plain part of [fmt.Sprintf]: the verbs [%d] on an integer, [%s]
    on a string, [%v] on any operand and [%%], with exactly one operand
    for each verb. [None] is a format outside this part. *)
Fixpoint Sprintf_plain (format : bytes) (a : list value) : option bytes :=
  match format with
  | [] => match a with [] => Some [] | _ :: _ => None end
  | c :: rest =>
      if Ascii.eqb c "%"%char then
        match rest with
        | [] => None
        | verb :: rest' =>
            if Ascii.eqb verb "%"%char then
              cons "%"%char <$> Sprintf_plain rest' a
            else
              match a with
              | [] => None
              | arg :: a' =>
                  let shown :=
                    if Ascii.eqb verb "v"%char then Some (printArg arg)
                    else match verb, arg with
                         | "d"%char, VInt i => Some (fmt_int i)
                         | "s"%char, VString s => Some s
                         | _, _ => None
                         end in
                  match shown with
                  | Some t => app t <$> Sprintf_plain rest' a'
                  | None => None
                  end
              end
        end
      else cons c <$> Sprintf_plain rest a
  end.

(** ** The methods of the logger *)

Section Methods.
Context {W : Type} {W_Writer : Writer W}.

(** [log.buf = append(log.buf, p...)]. *)
Definition append (p : bytes) : M W unit :=
  l <- get_logger ;; set_buf (buf l ++ p).

(** [itoa(&log.buf, i, wid)]. *)
Definition itoa_buf (i wid : Z) : M W unit :=
  l <- get_logger ;; b <- check (itoa (buf l) i wid) ;; set_buf b.

Definition date (now : Time) : M W unit :=
  itoa_buf (year now) 4 ;;;
  append (str "-") ;;;
  itoa_buf (month now) 2 ;;;
  append (str "-") ;;;
  itoa_buf (day now) 2 ;;;
  append (str "T") ;;;
  itoa_buf (hour now) 2 ;;;
  append (str ":") ;;;
  itoa_buf (minute now) 2 ;;;
  append (str ":") ;;;
  itoa_buf (second now) 2 ;;;
  let off := offset now in
  if off =? 0 then append (str "Z")
  else
    let zone := int_quo off 60 in
    let absoff := off in
    za <- (if zone <? 0
           then append (str "-") ;;; ret (int_neg zone, int_neg absoff)
           else append (str "+") ;;; ret (zone, absoff)) ;;
    let zone := fst za in
    itoa_buf (int_quo zone 60) 2 ;;;
    append (str ":") ;;;
    itoa_buf (int_rem zone 60) 2.

Definition header (level : Level) (now : Time) (file : bytes) (line : Z)
  : M W unit :=
  l <- get_logger ;;
  label <- check (index (pre l) level) ;;
  append label ;;;
  append (str " ") ;;;
  date now ;;;
  append (str " ") ;;;
  if negb (Z.land (flag l) (Z.lor FlagShortPath FlagLongPath) =? 0) then
    file <- (if negb (Z.land (flag l) FlagShortPath =? 0)
             then check (short_path file)
             else ret file) ;;
    append file ;;;
    append (str ":") ;;;
    itoa_buf line (-1) ;;;
    append (str ": ")
  else ret tt.

Definition time_Now (e : Env) : M W Time :=
  emit ENow ;;; ret (now e).

Definition runtime_Caller (e : Env) (skip : Z) : M W (option (bytes * Z)) :=
  emit (ECaller skip) ;;; ret (Caller e skip).

(** [log.out.Write(log.buf)]: a nil sink panics. *)
Definition out_Write : M W (Z * option error) :=
  fun w =>
    let l := logger w in
    match heap w !! out l with
    | None => (Panic, w)
    | Some k =>
        let '(k', r) := Write k (buf l) in
        (Ok r, mkWorld l (<[out l := k']> (heap w)) (trace w ++ [EWrite (out l) (buf l)]))
    end.

Definition newline : bytes := [ascii_of_nat 10].

(** [Output], the generic printing function. *)
Definition Output (e : Env) (l : Level) (s : bytes) : M W (option error) :=
  now <- time_Now e ;;
  emit ELock ;;;
  defer (emit EUnlock)
    (lg <- get_logger ;;
     if l <? min lg then ret None
     else
       fl <- (if negb (Z.land (flag lg) (Z.lor FlagShortPath FlagLongPath) =? 0)
              then
                emit EUnlock ;;;
                r <- runtime_Caller e 2 ;;
                let fl := match r with
                          | Some fl => fl
                          | None => (str "?", 0)
                          end in
                emit ELock ;;;
                ret fl
              else ret ([], 0)) ;;
       set_buf [] ;;;
       header l now (fst fl) (snd fl) ;;;
       append s ;;;
       append newline ;;;
       r <- out_Write ;;
       ret (snd r)).

(** The convenience methods; [fmt.Sprintf] is a parameter. *)
Section Wrappers.
Variable Sprintf : bytes -> list value -> bytes.

Definition Log (e : Env) (l : Level) (v : list value) : M W unit :=
  Output e l (Sprint v) ;;; ret tt.
Definition Logf (e : Env) (l : Level) (format : bytes) (v : list value)
  : M W unit :=
  Output e l (Sprintf format v) ;;; ret tt.
Definition Debug (e : Env) (v : list value) : M W unit :=
  Output e LevelDebug (Sprint v) ;;; ret tt.
Definition Debugf (e : Env) (format : bytes) (v : list value) : M W unit :=
  Output e LevelDebug (Sprintf format v) ;;; ret tt.
Definition Info (e : Env) (v : list value) : M W unit :=
  Output e LevelInfo (Sprint v) ;;; ret tt.
Definition Infof (e : Env) (format : bytes) (v : list value) : M W unit :=
  Output e LevelInfo (Sprintf format v) ;;; ret tt.
Definition Warn (e : Env) (v : list value) : M W unit :=
  Output e LevelWarn (Sprint v) ;;; ret tt.
Definition Warnf (e : Env) (format : bytes) (v : list value) : M W unit :=
  Output e LevelWarn (Sprintf format v) ;;; ret tt.
Definition Error (e : Env) (v : list value) : M W unit :=
  Output e LevelError (Sprint v) ;;; ret tt.
Definition Errorf (e : Env) (format : bytes) (v : list value) : M W unit :=
  Output e LevelError (Sprintf format v) ;;; ret tt.
End Wrappers.
End Methods.

Arguments itoa : simpl never.
Arguments Sprint : simpl never.

(** ** The line format, as it is described *)

(** The designator of a UTC offset of [off] seconds: [Z] for zero, else
    the sign of the offset in whole minutes, and the hours and minutes of
    its absolute value. *)
Definition zone_designator (off : Z) : bytes :=
  if off =? 0 then str "Z"
  else
    (if off <=? -60 then "-"%char else "+"%char)
      :: field 2 (Z.abs off / 3600) ++ str ":" ++ field 2 (Z.abs off / 60 mod 60).

(** The designator with the sign of the offset itself. *)
Definition signed_designator (off : Z) : bytes :=
  if off =? 0 then str "Z"
  else
    (if off <? 0 then "-"%char else "+"%char)
      :: field 2 (Z.abs off / 3600) ++ str ":" ++ field 2 (Z.abs off / 60 mod 60).

(** [YYYY-MM-DDTHH:MM:SS]. *)
Definition clock_text (t : Time) : bytes :=
  field 4 (year t) ++ str "-" ++ field 2 (month t) ++ str "-" ++ field 2 (day t)
    ++ str "T" ++ field 2 (hour t) ++ str ":" ++ field 2 (minute t)
    ++ str ":" ++ field 2 (second t).

Definition timestamp (t : Time) : bytes :=
  clock_text t ++ zone_designator (offset t).

(** The part of a path after its last separator, when it has one. *)
Fixpoint after_last_sep (p : bytes) : option bytes :=
  match p with
  | [] => None
  | c :: r =>
      match after_last_sep r with
      | Some t => Some t
      | None => if is_sep c then Some r else None
      end
  end.

(** The final segment of a path: the path itself without a separator. *)
Definition base_name (p : bytes) : bytes :=
  match after_last_sep p with
  | Some t => t
  | None => p
  end.

(** The final segment, a separator in first position not counting. *)
Definition short_name (p : bytes) : bytes :=
  match after_last_sep (tail p) with
  | Some t => t
  | None => p
  end.

(** One of the two path flags is set. *)
Definition located (f : Z) : bool :=
  negb (Z.land f (Z.lor FlagShortPath FlagLongPath) =? 0).

(** The short-path flag is set. *)
Definition shortened (f : Z) : bool :=
  negb (Z.land f FlagShortPath =? 0).

(** The caller's location as [Output] resolves it. *)
Definition resolved (c : option (bytes * Z)) : bytes * Z :=
  match c with
  | Some fl => fl
  | None => (str "?", 0)
  end.

(** [path:line: ] when a path flag is set, nothing otherwise. *)
Definition location (f : Z) (c : option (bytes * Z)) : bytes :=
  if located f then
    (if shortened f then short_name (fst (resolved c)) else fst (resolved c))
      ++ str ":" ++ decimal (snd (resolved c)) ++ str ": "
  else [].

(** The events of [Output] up to the reset of the buffer. *)
Definition prologue (f : Z) : list event :=
  [ENow; ELock] ++ (if located f then [EUnlock; ECaller 2; ELock] else []).

(** The line of a record. *)
Definition record_line (label : bytes) (t : Time) (f : Z) (c : option (bytes * Z))
  (s : bytes) : bytes :=
  label ++ str " " ++ timestamp t ++ str " " ++ location f c ++ s ++ newline.

(** ** Well-formed inputs *)

Definition nat_int (z : Z) : Prop := 0 <= z <= int_max.

(** A clock reading: no field is negative, all are values of [int]. *)
Definition valid_time (t : Time) : Prop :=
  nat_int (year t) /\ nat_int (month t) /\ nat_int (day t) /\
  nat_int (hour t) /\ nat_int (minute t) /\ nat_int (second t) /\
  is_int (offset t).

(** The run time reports a line that is a non-negative [int]. *)
Definition valid_env (e : Env) : Prop :=
  valid_time (now e) /\
  match Caller e 2 with
  | Some fl => nat_int (snd fl)
  | None => True
  end.

(** The level selects an element of the label array. *)
Definition in_labels (l : Z) : Prop := 0 <= l <= 4.

(** The sink of the logger is not nil. *)
Definition live {W} (w : World W) : Prop :=
  is_Some (heap w !! out (logger w)).

(** The fields of the logger set at construction. *)
Definition same_config (a b : Logger) : Prop :=
  out a = out b /\ min a = min b /\ pre a = pre b /\ flag a = flag b.

(** The events a computation adds to the trace. *)
Definition added {W A} (m : M W A) (w : World W) : list event :=
  drop (length (trace w)) (trace (snd (m w))).

(** ** The convenience methods as one family *)

Inductive wrapper : Type :=
| WLog (l : Z) (v : list value)
| WLogf (l : Z) (format : bytes) (v : list value)
| WDebug (v : list value)
| WDebugf (format : bytes) (v : list value)
| WInfo (v : list value)
| WInfof (format : bytes) (v : list value)
| WWarn (v : list value)
| WWarnf (format : bytes) (v : list value)
| WError (v : list value)
| WErrorf (format : bytes) (v : list value).

Definition wrapper_level (c : wrapper) : Z :=
  match c with
  | WLog l _ | WLogf l _ _ => l
  | WDebug _ | WDebugf _ _ => LevelDebug
  | WInfo _ | WInfof _ _ => LevelInfo
  | WWarn _ | WWarnf _ _ => LevelWarn
  | WError _ | WErrorf _ _ => LevelError
  end.

Definition call {W} {W_Writer : Writer W} (Sprintf : bytes -> list value -> bytes)
  (e : Env) (c : wrapper) : M W unit :=
  match c with
  | WLog l v => Log e l v
  | WLogf l f v => Logf Sprintf e l f v
  | WDebug v => Debug e v
  | WDebugf f v => Debugf Sprintf e f v
  | WInfo v => Info e v
  | WInfof f v => Infof Sprintf e f v
  | WWarn v => Warn e v
  | WWarnf f v => Warnf Sprintf e f v
  | WError v => Error e v
  | WErrorf f v => Errorf Sprintf e f v
  end.

(** The message a convenience method passes to [Output]. *)
Definition wrapper_text (Sprintf : bytes -> list value -> bytes) (c : wrapper)
  : bytes :=
  match c with
  | WLog _ v | WDebug v | WInfo v | WWarn v | WError v => Sprint v
  | WLogf _ f v | WDebugf f v | WInfof f v | WWarnf f v | WErrorf f v =>
      Sprintf f v
  end.

(** The method is one of the eight with a severity in its name. *)
Definition named (c : wrapper) : bool :=
  match c with
  | WLog _ _ | WLogf _ _ _ => false
  | _ => true
  end.

(** ** Concrete inputs *)

(** 2024-03-02 15:04:05 at [off] seconds east of UTC. *)
Definition clock_at (off : Z) : Time := mkTime 2024 3 2 15 4 5 off.

(** A run time that locates the caller at [file], line 42. *)
Definition env_at (off : Z) (file : bytes) : Env :=
  mkEnv (clock_at off) (fun _ => Some (file, 42)).

(** A logger built by [New] on an in-memory sink at address 0. *)
Definition world_of (minLevel flags : Z) (closed : bool) : World MemSink :=
  mkWorld (New O minLevel flags None) {[ O := mkMemSink [] closed ]} [].

(** A total [Sprintf] that agrees with [Sprintf_plain]. *)
Definition Sprintf_default (format : bytes) (a : list value) : bytes :=
  match Sprintf_plain format a with
  | Some t => t
  | None => []
  end.
(** ** Further notions of the statements *)

(** Exactly [w] decimal digits of [n], the low ones. *)
Fixpoint fixed (w : nat) (n : Z) : bytes :=
  match w with
  | O => []
  | S w' => fixed w' (n / 10) ++ [digit (n mod 10)]
  end.

(** The fields of a clock reading in their calendar ranges. *)
Definition calendar (t : Time) : Prop :=
  0 <= year t <= 9999 /\ 1 <= month t <= 12 /\ 1 <= day t <= 31 /\
  0 <= hour t <= 23 /\ 0 <= minute t <= 59 /\ 0 <= second t <= 59.

(** The operands in their default formats, one after the other, with a
    space between two neighbours when neither is a string. *)
Fixpoint joined (a : list value) : bytes :=
  match a with
  | [] => []
  | x :: rest =>
      printArg x ++
      match rest with
      | [] => []
      | y :: _ =>
          (if negb (is_string x) && negb (is_string y) then str " " else [])
            ++ joined rest
      end
  end.

(** The operands in their default formats with no separator at all. *)
Definition concatenated (a : list value) : bytes := concat (map printArg a).

(** [Sprintf] is [fmt.Sprintf] on the plain formats. *)
Definition extends_plain (Sprintf : bytes -> list value -> bytes) : Prop :=
  forall format a t, Sprintf_plain format a = Some t -> Sprintf format a = t.

(** The computation leaves the configuration of the logger as it was. *)
Definition keeps_config {W A} (m : M W A) : Prop :=
  forall w, same_config (logger (snd (m w))) (logger w).

(** Both path flags are set. *)
Definition both_paths (f : Z) : Prop :=
  Z.land f FlagLongPath <> 0 /\ Z.land f FlagShortPath <> 0.

(** ** Notions of the further properties *)

(** The world with another buffer, all else as it is. *)
Definition with_buf {W} (w : World W) (b : bytes) : World W :=
  mkWorld
    (mkLogger (out (logger w)) b (min (logger w)) (pre (logger w)) (flag (logger w)))
    (heap w) (trace w).

(** The computation changes the buffer of the logger and nothing else. *)
Definition buf_only {W A} (m : M W A) : Prop :=
  forall w, exists b, snd (m w) = with_buf w b.

(** The mutex along a trace, from the state [held]: [None] when the trace
    locks a held mutex, unlocks a free one, writes to the sink without the
    lock or looks up the caller with it. *)
Fixpoint lock_after (held : bool) (t : list event) : option bool :=
  match t with
  | [] => Some held
  | ENow :: t' => lock_after held t'
  | ELock :: t' => if held then None else lock_after true t'
  | EUnlock :: t' => if held then lock_after false t' else None
  | ECaller _ :: t' => if held then None else lock_after held t'
  | EWrite _ _ :: t' => if held then lock_after held t' else None
  end.

(** The byte is one of the ten decimal digits. *)
Definition is_digit (c : ascii) : bool :=
  (48 <=? Z.of_N (N_of_ascii c)) && (Z.of_N (N_of_ascii c) <=? 57).

(** ** Lemmas on integers and [itoa] *)

Lemma wrap_mod_256 z : wrap z mod 256 = z mod 256.
Proof.
  unfold wrap.
  pose proof (Z.div_mod (z + 2 ^ 63) (2 ^ 64) ltac:(lia)) as E.
  set (k := (z + 2 ^ 63) / 2 ^ 64) in *.
  replace ((z + 2 ^ 63) mod 2 ^ 64 - 2 ^ 63) with (z + (- (k * 2 ^ 56)) * 256) by lia.
  apply Z_mod_plus_full.
Qed.

Lemma wrap_id z : is_int z -> wrap z = z.
Proof.
  unfold is_int, int_min, int_max, wrap. intros Hz.
  rewrite Z.mod_small by lia. lia.
Qed.

Lemma byte_of_int_wrap z : byte_of_int (wrap z) = byte_of_int z.
Proof. unfold byte_of_int. by rewrite wrap_mod_256. Qed.

Lemma byte_of_digit d : 0 <= d < 10 -> byte_of_int (int_add 48 d) = digit d.
Proof.
  intros Hd. unfold int_add. rewrite byte_of_int_wrap.
  unfold byte_of_int, digit. rewrite Z.mod_small by lia. done.
Qed.

Lemma byte_of_last_digit i :
  0 <= i ->
  byte_of_int (int_sub (int_add 48 i) (int_mul (int_quo i 10) 10)) = digit (i mod 10).
Proof.
  intros Hi. unfold int_sub, int_add, int_mul, int_quo.
  rewrite byte_of_int_wrap. unfold byte_of_int, digit.
  rewrite Zminus_mod, !wrap_mod_256, <- Zminus_mod.
  rewrite Z.quot_div_nonneg by lia.
  pose proof (Z.div_mod i 10 ltac:(lia)).
  pose proof (Z.mod_pos_bound i 10 ltac:(lia)).
  replace (48 + i - i / 10 * 10) with (48 + i mod 10) by lia.
  rewrite Z.mod_small by lia. done.
Qed.

(** *** The decimal notation does not depend on the fuel *)

Lemma decimal_fuel_enough f f' n :
  0 <= n -> n < 10 ^ (Z.of_nat f + 1) -> n < 10 ^ (Z.of_nat f' + 1) ->
  decimal_fuel f n = decimal_fuel f' n.
Proof.
  revert f' n. induction f as [|f IH]; intros f' n Hn Hf Hf'.
  - change (10 ^ (Z.of_nat 0 + 1)) with 10 in Hf.
    destruct f' as [|f']; simpl; [done|].
    destruct (Z.ltb_spec n 10); [done|lia].
  - destruct f' as [|f']; simpl.
    + change (10 ^ (Z.of_nat 0 + 1)) with 10 in Hf'.
      destruct (Z.ltb_spec n 10); [done|lia].
    + destruct (Z.ltb_spec n 10); [done|].
      f_equal. apply IH.
      * apply Z.div_pos; lia.
      * apply Z.div_lt_upper_bound; [lia|].
        rewrite <- Z.pow_succ_r by lia.
        replace (Z.succ (Z.of_nat f + 1)) with (Z.of_nat (S f) + 1) by lia. done.
      * apply Z.div_lt_upper_bound; [lia|].
        rewrite <- Z.pow_succ_r by lia.
        replace (Z.succ (Z.of_nat f' + 1)) with (Z.of_nat (S f') + 1) by lia. done.
Qed.

Lemma log2_fuel_enough n :
  0 <= n -> n < 10 ^ (Z.of_nat (Z.to_nat (Z.log2 n)) + 1).
Proof.
  intros Hn. pose proof (Z.log2_nonneg n) as Hl.
  rewrite Z2Nat.id by done.
  destruct (Z.eq_dec n 0) as [->|Hn0]; [done|].
  pose proof (Z.log2_spec n ltac:(lia)) as [_ Hlt].
  eapply Z.lt_le_trans; [exact Hlt|].
  replace (Z.succ (Z.log2 n)) with (Z.log2 n + 1) by lia.
  apply Z.pow_le_mono_l. lia.
Qed.

Lemma decimal_small n : 0 <= n < 10 -> decimal n = [digit n].
Proof.
  intros Hn. unfold decimal.
  destruct (Z.to_nat (Z.log2 n)); simpl; [done|].
  destruct (Z.ltb_spec n 10); [done|lia].
Qed.

Lemma decimal_step n :
  10 <= n -> decimal n = decimal (n / 10) ++ [digit (n mod 10)].
Proof.
  intros Hn. unfold decimal.
  assert (0 <= n / 10) by (apply Z.div_pos; lia).
  rewrite (decimal_fuel_enough _ (S (Z.to_nat (Z.log2 (n / 10)))) n).
  - simpl. destruct (Z.ltb_spec n 10); [lia|done].
  - lia.
  - apply log2_fuel_enough. lia.
  - pose proof (log2_fuel_enough (n / 10) ltac:(lia)) as Hq.
    replace (Z.of_nat (S (Z.to_nat (Z.log2 (n / 10)))) + 1)
      with (Z.succ (Z.of_nat (Z.to_nat (Z.log2 (n / 10))) + 1)) by lia.
    rewrite Z.pow_succ_r by lia.
    pose proof (Z.div_mod n 10 ltac:(lia)).
    pose proof (Z.mod_pos_bound n 10 ltac:(lia)). lia.
Qed.

(** The notation denotes the number. *)
Lemma digit_value d : 0 <= d < 10 -> Z.of_N (N_of_ascii (digit d)) - 48 = d.
Proof.
  intros Hd. unfold digit. rewrite N_ascii_embedding by lia. lia.
Qed.

Lemma digits_value_snoc l c :
  digits_value (l ++ [c]) = 10 * digits_value l + (Z.of_N (N_of_ascii c) - 48).
Proof. unfold digits_value. by rewrite fold_left_app. Qed.

Lemma decimal_fuel_value f : forall n,
  0 <= n -> n < 10 ^ (Z.of_nat f + 1) -> digits_value (decimal_fuel f n) = n.
Proof.
  induction f as [|f IH]; intros n Hn Hlt.
  - change (10 ^ (Z.of_nat 0 + 1)) with 10 in Hlt.
    unfold digits_value. simpl. rewrite digit_value by lia. lia.
  - simpl. destruct (Z.ltb_spec n 10).
    + unfold digits_value. simpl. rewrite digit_value by lia. lia.
    + pose proof (Z.div_mod n 10 ltac:(lia)).
      pose proof (Z.mod_pos_bound n 10 ltac:(lia)).
      rewrite digits_value_snoc, digit_value by lia.
      rewrite IH; [lia|apply Z.div_pos; lia|].
      apply Z.div_lt_upper_bound; [lia|].
      rewrite <- Z.pow_succ_r by lia.
      replace (Z.succ (Z.of_nat f + 1)) with (Z.of_nat (S f) + 1) by lia. done.
Qed.

Lemma decimal_value n : 0 <= n -> digits_value (decimal n) = n.
Proof.
  intros Hn. apply decimal_fuel_value; [done|]. by apply log2_fuel_enough.
Qed.

(** *** The loop of [itoa] writes the padded decimal notation *)

Lemma itoa_loop_spec bp : forall b i wid,
  0 <= i -> i < 10 ^ (Z.of_nat bp + 1) ->
  int_min + Z.of_nat bp < wid <= Z.of_nat bp + 1 ->
  length b = 20%nat -> (bp < 20)%nat ->
  exists b' bp' i',
    itoa_loop bp b i wid = Some (b', bp', i') /\
    0 <= i' < 10 /\ (bp' <= bp)%nat /\ length b' = 20%nat /\
    digit i' :: drop (S bp') b' = zero_pad wid (decimal i) ++ drop (S bp) b.
Proof.
  induction bp as [|bp IH]; intros b i wid Hi Hlt Hwid Hlen Hbp.
  - change (10 ^ (Z.of_nat 0 + 1)) with 10 in Hlt. simpl in Hwid.
    exists b, O, i. simpl.
    destruct (Z.leb_spec 10 i); [lia|]. destruct (Z.ltb_spec 1 wid); [lia|].
    simpl. repeat split; try lia; try done.
    rewrite decimal_small by lia. unfold zero_pad. simpl.
    replace (Z.to_nat wid - 1)%nat with O by lia. done.
  - simpl.
    destruct (Z.leb_spec 10 i) as [Hge|Hsmall]; simpl.
    + (* another digit follows *)
      rewrite byte_of_last_digit by done.
      unfold int_quo. rewrite Z.quot_div_nonneg by lia.
      destruct (IH (<[S bp := digit (i mod 10)]> b) (i / 10) (int_sub wid 1))
        as (b' & bp' & i' & Hrun & Hi' & Hle & Hlen' & Hout).
      * apply Z.div_pos; lia.
      * apply Z.div_lt_upper_bound; [lia|].
        rewrite <- Z.pow_succ_r by lia.
        replace (Z.succ (Z.of_nat bp + 1)) with (Z.of_nat (S bp) + 1) by lia. done.
      * unfold int_sub. rewrite wrap_id; unfold is_int, int_min, int_max in *; lia.
      * by rewrite length_insert.
      * lia.
      * exists b', bp', i'. rewrite Hrun. repeat split; try lia; try done.
        rewrite Hout. unfold int_sub.
        rewrite wrap_id by (unfold is_int, int_min, int_max in *; lia).
        rewrite (decimal_step i) by done.
        rewrite (drop_S (<[S bp := digit (i mod 10)]> b) (digit (i mod 10)) (S bp))
          by (apply list_lookup_insert_eq; lia).
        rewrite drop_insert_lt by lia.
        unfold zero_pad. rewrite length_app. simpl.
        replace (Z.to_nat (wid - 1) - length (decimal (i / 10)))%nat
          with (Z.to_nat wid - (length (decimal (i / 10)) + 1))%nat by lia.
        by rewrite <- !app_assoc.
    + destruct (Z.ltb_spec 1 wid) as [Hw|Hw]; simpl.
      * (* a padding zero follows *)
        rewrite byte_of_last_digit by done.
        unfold int_quo. rewrite Z.quot_div_nonneg by lia.
        rewrite (Z.div_small i 10), (Z.mod_small i 10) by lia.
        destruct (IH (<[S bp := digit i]> b) 0 (int_sub wid 1))
          as (b' & bp' & i' & Hrun & Hi' & Hle & Hlen' & Hout).
        -- lia.
        -- apply Z.pow_pos_nonneg; lia.
        -- unfold int_sub. rewrite wrap_id; unfold is_int, int_min, int_max in *; lia.
        -- by rewrite length_insert.
        -- lia.
        -- exists b', bp', i'. rewrite Hrun. repeat split; try lia; try done.
           rewrite Hout. unfold int_sub.
           rewrite wrap_id by (unfold is_int, int_min, int_max in *; lia).
           rewrite (drop_S (<[S bp := digit i]> b) (digit i) (S bp))
             by (apply list_lookup_insert_eq; lia).
           rewrite drop_insert_lt by lia.
           rewrite !decimal_small by lia.
           unfold zero_pad. simpl.
           replace (Z.to_nat wid - 1)%nat with (S (Z.to_nat (wid - 1) - 1))%nat by lia.
           rewrite replicate_S_end. by rewrite <- !app_assoc.
      * exists b, (S bp), i. repeat split; try lia; try done.
        rewrite decimal_small by lia. unfold zero_pad. simpl.
        replace (Z.to_nat wid - 1)%nat with O by lia. done.
Qed.

(** [itoa] appends the decimal notation of a non-negative [int], padded
    with zeros to the width; it does not panic for a width up to 20. *)
Lemma itoa_spec buf i wid :
  nat_int i -> int_min + 19 < wid <= 20 ->
  itoa buf i wid = Some (buf ++ field wid i).
Proof.
  intros [Hi Hmax] Hwid. unfold itoa.
  destruct (itoa_loop_spec 19 (replicate 20 zero_byte) i wid)
    as (b' & bp' & i' & Hrun & Hi' & Hle & Hlen' & Hout); try done; try lia.
  - unfold int_max in Hmax. change (10 ^ (Z.of_nat 19 + 1)) with (10 ^ 20). lia.
  - rewrite Hrun. f_equal. f_equal.
    rewrite byte_of_digit by done.
    rewrite (drop_S (<[bp' := digit i']> b') (digit i') bp')
      by (apply list_lookup_insert_eq; lia).
    rewrite drop_insert_lt by lia. rewrite Hout.
    rewrite (drop_ge (replicate 20 zero_byte)) by (rewrite length_replicate; lia).
    by rewrite app_nil_r.
Qed.

(** *** The offset in whole minutes *)

Lemma zone_sign off : (int_quo off 60 <? 0) = (off <=? -60).
Proof.
  unfold int_quo.
  destruct (Z.ltb_spec (off ÷ 60) 0), (Z.leb_spec off (-60)); try done;
    Z.to_euclidean_division_equations; lia.
Qed.

Lemma zone_minutes off :
  is_int off ->
  (if int_quo off 60 <? 0 then int_neg (int_quo off 60) else int_quo off 60)
  = Z.abs off / 60.
Proof.
  unfold is_int, int_min, int_max, int_neg, int_quo. intros Hoff.
  destruct (Z.ltb_spec (off ÷ 60) 0).
  - rewrite wrap_id
      by (unfold is_int, int_min, int_max; Z.to_euclidean_division_equations; lia).
    Z.to_euclidean_division_equations; lia.
  - Z.to_euclidean_division_equations; lia.
Qed.

Lemma zone_hours_minutes z :
  0 <= z <= int_max ->
  nat_int (int_quo z 60) /\ nat_int (int_rem z 60) /\
  int_quo z 60 = z / 60 /\ int_rem z 60 = z mod 60.
Proof.
  unfold nat_int, int_max, int_quo, int_rem. intros Hz.
  repeat split; Z.to_euclidean_division_equations; lia.
Qed.

(** *** Running the methods *)

(** Byte sequences, flattened to the right. *)
Ltac flat :=
  repeat (progress (repeat rewrite <- app_assoc;
                    cbn [app str list_ascii_of_string newline])).

Section Runs.
Context {W : Type} {W_Writer : Writer W}.
Implicit Types (h : gmap loc W) (t : list event) (b : bytes).

Lemma bind_run {A B} (m : M W A) (k : A -> M W B) w a w' :
  m w = (Ok a, w') -> bind m k w = k a w'.
Proof. unfold bind. by intros ->. Qed.

Lemma bind_panic {A B} (m : M W A) (k : A -> M W B) w w' :
  m w = (Panic, w') -> bind m k w = (Panic, w').
Proof. unfold bind. by intros ->. Qed.

Lemma append_run x o b mn p f h t :
  append x (mkWorld (mkLogger o b mn p f) h t)
  = (Ok tt, mkWorld (mkLogger o (b ++ x) mn p f) h t).
Proof. reflexivity. Qed.

Lemma itoa_buf_run i wid o b mn p f h t :
  nat_int i -> int_min + 19 < wid <= 20 ->
  itoa_buf i wid (mkWorld (mkLogger o b mn p f) h t)
  = (Ok tt, mkWorld (mkLogger o (b ++ field wid i) mn p f) h t).
Proof.
  intros Hi Hwid. unfold itoa_buf, bind, get_logger. simpl.
  by rewrite itoa_spec.
Qed.

(** [date] appends the timestamp. *)
Lemma date_run now o b mn p f h t :
  valid_time now ->
  date now (mkWorld (mkLogger o b mn p f) h t)
  = (Ok tt, mkWorld (mkLogger o (b ++ timestamp now) mn p f) h t).
Proof.
  intros (Hy & Hmo & Hd & Hh & Hmi & Hs & Hoff).
  assert (Hw4 : int_min + 19 < 4 <= 20) by (unfold int_min; lia).
  assert (Hw2 : int_min + 19 < 2 <= 20) by (unfold int_min; lia).
  unfold date.
  repeat (first [ erewrite bind_run by (apply itoa_buf_run; eassumption)
                | erewrite bind_run by apply append_run ]).
  unfold timestamp, clock_text, zone_designator.
  destruct (Z.eqb_spec (offset now) 0) as [Hz|Hnz].
  - rewrite append_run. by flat.
  - pose proof (zone_sign (offset now)) as Hsign.
    pose proof (zone_minutes (offset now) Hoff) as Hmin.
    assert (Habs : 0 <= Z.abs (offset now) / 60 <= int_max).
    { unfold is_int, int_min, int_max in *. Z.to_euclidean_division_equations; lia. }
    destruct (zone_hours_minutes _ Habs) as (Hq & Hr & Hqe & Hre).
    rewrite Z.div_div in Hqe by lia. change (60 * 60) with 3600 in Hqe.
    rewrite <- Hsign.
    destruct (int_quo (offset now) 60 <? 0);
      erewrite bind_run by (erewrite bind_run by apply append_run; reflexivity);
      cbn [fst]; rewrite Hmin;
      erewrite bind_run by (apply itoa_buf_run; eassumption);
      erewrite bind_run by apply append_run;
      rewrite itoa_buf_run by eassumption;
      rewrite Hqe, Hre; by flat.
Qed.
End Runs.

(** *** The path shortening *)

Lemma after_last_sep_snoc l c :
  after_last_sep (l ++ [c])
  = if is_sep c then Some [] else (fun t => t ++ [c]) <$> after_last_sep l.
Proof.
  induction l as [|a l IH]; simpl.
  - by destruct (is_sep c).
  - rewrite IH. destruct (is_sep c); [done|].
    destruct (after_last_sep l); simpl; [done|]. by destruct (is_sep a).
Qed.

Lemma short_loop_spec file i :
  (i < length file)%nat ->
  short_loop file i
  = Some (match after_last_sep (take i (tail file)) with
          | Some t => t ++ drop (S i) file
          | None => file
          end).
Proof.
  induction i as [|j IH]; intros Hlt; simpl.
  - done.
  - destruct (lookup_lt_is_Some_2 file (S j) Hlt) as [c Hc].
    rewrite Hc.
    assert (Htake : take (S j) (tail file) = take j (tail file) ++ [c]).
    { apply take_S_r. by rewrite lookup_tail. }
    rewrite Htake, after_last_sep_snoc.
    destruct (is_sep c).
    + by rewrite Nat.add_1_r.
    + rewrite IH by lia.
      destruct (after_last_sep (take j (tail file))); simpl; [|done].
      rewrite (drop_S file c (S j)) by done. by rewrite <- app_assoc.
Qed.

(** The loop never indexes out of range, and leaves [short_name]. *)
Lemma short_path_spec file : short_path file = Some (short_name file).
Proof.
  unfold short_path, short_name. destruct file as [|c r]; [done|].
  rewrite short_loop_spec by (simpl; lia).
  simpl. rewrite Nat.sub_0_r, take_ge by done.
  destruct (after_last_sep r); [|done].
  rewrite drop_ge by (simpl; lia). by rewrite app_nil_r.
Qed.

(** The shortened path is the final segment, except for a path whose only
    separator is its first character. *)
Lemma short_name_base_name p :
  short_name p = base_name p
  \/ exists r, p = "/"%char :: r /\ after_last_sep r = None /\ short_name p = p.
Proof.
  destruct p as [|c r]; [by left|].
  unfold short_name, base_name. simpl.
  destruct (after_last_sep r) eqn:Hr; [by left|].
  destruct (is_sep c) eqn:Hc; [|by left].
  right. exists r. apply Ascii.eqb_eq in Hc. by subst c.
Qed.

Lemma location_resolved f c : location f (Some (resolved c)) = location f c.
Proof. done. Qed.

Section RunOutput.
Context {W : Type} {W_Writer : Writer W}.
Implicit Types (h : gmap loc W) (t : list event) (b : bytes).

(** [header] appends the label, the timestamp and the location. *)
Lemma header_run level now file line label o b mn p f h t :
  index p level = Some label -> valid_time now -> nat_int line ->
  header level now file line (mkWorld (mkLogger o b mn p f) h t)
  = (Ok tt,
     mkWorld (mkLogger o (b ++ label ++ str " " ++ timestamp now ++ str " "
                            ++ location f (Some (file, line))) mn p f) h t).
Proof.
  intros Hlabel Hnow Hline.
  assert (Hw : int_min + 19 < -1 <= 20) by (unfold int_min; lia).
  unfold header, get_logger.
  erewrite bind_run by reflexivity. cbn [pre flag logger].
  rewrite Hlabel.
  erewrite bind_run by reflexivity.
  erewrite bind_run by apply append_run.
  erewrite bind_run by apply append_run.
  erewrite bind_run by (by apply date_run).
  erewrite bind_run by apply append_run.
  unfold location, located, shortened, resolved. cbn [fst snd].
  destruct (negb (Z.land f (Z.lor FlagShortPath FlagLongPath) =? 0)).
  - destruct (negb (Z.land f FlagShortPath =? 0)).
    + rewrite short_path_spec.
      erewrite bind_run by reflexivity.
      erewrite bind_run by apply append_run.
      erewrite bind_run by apply append_run.
      erewrite bind_run by (by apply itoa_buf_run).
      rewrite append_run. unfold field, zero_pad. by flat.
    + erewrite bind_run by reflexivity.
      erewrite bind_run by apply append_run.
      erewrite bind_run by apply append_run.
      erewrite bind_run by (by apply itoa_buf_run).
      rewrite append_run. unfold field, zero_pad. by flat.
  - unfold ret. rewrite app_nil_r. by flat.
Qed.

(** A level outside the label array panics before anything is
    appended. *)
Lemma header_panic level now file line (w : World W) :
  index (pre (logger w)) level = None ->
  header level now file line w = (Panic, w).
Proof.
  intros Hnone. unfold header, get_logger.
  erewrite bind_run by reflexivity. by rewrite Hnone.
Qed.

(** A filtered record: the lock is taken and released, nothing else. *)
Lemma Output_filtered e l s (w : World W) :
  l < min (logger w) ->
  Output e l s w
  = (Ok None, mkWorld (logger w) (heap w) (trace w ++ [ENow; ELock; EUnlock])).
Proof.
  intros Hlt. unfold Output, time_Now, defer, bind, emit, get_logger, ret. simpl.
  destruct (Z.ltb_spec l (min (logger w))); [|lia].
  simpl. by rewrite <- !app_assoc.
Qed.

(** The state of [Output] when it calls [header]. *)
Lemma Output_unfiltered e l s o b mn p f h t :
  mn <= l ->
  Output e l s (mkWorld (mkLogger o b mn p f) h t)
  = defer (emit EUnlock)
      (header l (now e) (fst (if located f then resolved (Caller e 2) else ([], 0)))
         (snd (if located f then resolved (Caller e 2) else ([], 0))) ;;;
       append s ;;;
       append newline ;;;
       r <- out_Write ;;
       ret (snd r))
      (mkWorld (mkLogger o [] mn p f) h (t ++ prologue f)).
Proof.
  intros Hge. unfold Output, time_Now, runtime_Caller, prologue, located.
  unfold defer at 1 2. unfold bind at 1 2 3 4 5. unfold emit at 1 2 3. simpl.
  destruct (Z.ltb_spec l mn); [lia|]. unfold bind at 1.
  destruct (negb (Z.land f (Z.lor FlagShortPath FlagLongPath) =? 0));
    unfold bind, emit, ret, set_buf, resolved; simpl;
    by rewrite <- ?app_assoc.
Qed.
End RunOutput.

Lemma index_in_labels p l : in_labels l -> is_Some (index p l).
Proof.
  unfold in_labels. intros Hl.
  assert (l = 0 \/ l = 1 \/ l = 2 \/ l = 3 \/ l = 4) as Hcases by lia.
  destruct Hcases as [->|[->|[->|[->| ->]]]]; simpl; eauto.
Qed.

Lemma index_outside p l : ~ in_labels l -> index p l = None.
Proof.
  unfold in_labels, index. intros Hl.
  repeat match goal with
         | |- context [match ?x with _ => _ end] => destruct x
         end; try done; lia.
Qed.

Lemma located_short f : Z.land f FlagShortPath <> 0 -> located f = true.
Proof.
  unfold located, FlagShortPath, FlagLongPath.
  change (Z.shiftl 1 1) with 2. change (Z.lor 2 (Z.shiftl 1 0)) with 3.
  intros Hs.
  destruct (Z.eqb_spec (Z.land f 3) 0) as [Hz|]; [|done].
  exfalso. apply Hs.
  change 2 with (Z.land 3 2). by rewrite Z.land_assoc, Hz.
Qed.

Section RunWhole.
Context {W : Type} {W_Writer : Writer W}.
Implicit Types (h : gmap loc W) (t : list event) (b : bytes) (w : World W).

Lemma added_app {A} (m : M W A) w t' :
  trace (snd (m w)) = trace w ++ t' -> added m w = t'.
Proof. unfold added. intros ->. by rewrite drop_app_length. Qed.

(** An unfiltered record with a label: one write of the whole line. *)
Lemma Output_run e l s label k o b mn p f h t :
  mn <= l -> index p l = Some label -> valid_env e -> h !! o = Some k ->
  Output e l s (mkWorld (mkLogger o b mn p f) h t)
  = (Ok (snd (snd (Write k (record_line label (now e) f (Caller e 2) s)))),
     mkWorld (mkLogger o (record_line label (now e) f (Caller e 2) s) mn p f)
       (<[o := fst (Write k (record_line label (now e) f (Caller e 2) s))]> h)
       (t ++ prologue f
          ++ [EWrite o (record_line label (now e) f (Caller e 2) s); EUnlock])).
Proof.
  intros Hge Hlabel [Hnow Hcaller] Hk.
  rewrite Output_unfiltered by done.
  set (fl := if located f then resolved (Caller e 2) else ([], 0)).
  assert (Hline : nat_int (snd fl)).
  { unfold fl, resolved. destruct (located f), (Caller e 2); simpl; try done;
      unfold nat_int, int_max; lia. }
  assert (Hloc : location f (Some (fst fl, snd fl)) = location f (Caller e 2)).
  { rewrite <- surjective_pairing. unfold fl.
    destruct (located f) eqn:Hl; [apply location_resolved|].
    unfold location. by rewrite Hl. }
  unfold defer.
  erewrite bind_run by (by apply header_run).
  erewrite bind_run by apply append_run.
  erewrite bind_run by apply append_run.
  rewrite Hloc.
  assert (Hbuf : ((([] ++ label ++ str " " ++ timestamp (now e) ++ str " "
                      ++ location f (Caller e 2)) ++ s) ++ newline)
                 = record_line label (now e) f (Caller e 2) s).
  { unfold record_line. by flat. }
  rewrite Hbuf.
  unfold bind, out_Write, emit, ret. cbn [logger heap trace out buf].
  rewrite Hk.
  destruct (Write k (record_line label (now e) f (Caller e 2) s)) as [k' [n err]].
  cbn [fst snd trace logger heap]. by rewrite <- !app_assoc.
Qed.

(** An unfiltered record without a label: a panic and no write. *)
Lemma Output_panic e l s o b mn p f h t :
  mn <= l -> index p l = None ->
  Output e l s (mkWorld (mkLogger o b mn p f) h t)
  = (Panic, mkWorld (mkLogger o [] mn p f) h (t ++ prologue f ++ [EUnlock])).
Proof.
  intros Hge Hnone. rewrite Output_unfiltered by done.
  unfold defer. erewrite bind_panic by (by apply header_panic).
  unfold emit. cbn [trace logger heap]. by rewrite <- !app_assoc.
Qed.

Lemma writes_prologue f : writes (prologue f) = [].
Proof. unfold prologue. by destruct (located f). Qed.

Lemma writes_app t1 t2 : writes (t1 ++ t2) = writes t1 ++ writes t2.
Proof.
  induction t1 as [|ev t1 IH]; [done|].
  destruct ev; simpl; by rewrite ?IH.
Qed.
End RunWhole.

(** *** Fields of fixed width *)

Lemma fixed_zero w : fixed w 0 = replicate w "0"%char.
Proof.
  induction w as [|w IH]; [done|].
  cbn [fixed]. change (0 / 10) with 0. change (0 mod 10) with 0.
  rewrite IH, replicate_S_end. done.
Qed.

Lemma field_fixed w : forall n,
  (0 < w)%nat -> 0 <= n < 10 ^ Z.of_nat w -> field (Z.of_nat w) n = fixed w n.
Proof.
  induction w as [|w IH]; intros n Hw Hn; [lia|].
  cbn [fixed]. unfold field.
  destruct (Z.lt_ge_cases n 10) as [Hsmall|Hbig].
  - rewrite decimal_small by lia.
    rewrite (Z.div_small n 10), (Z.mod_small n 10) by lia.
    rewrite fixed_zero. unfold zero_pad. simpl length.
    by replace (Z.to_nat (Z.of_nat (S w)) - 1)%nat with w by lia.
  - destruct w as [|w]; [change (10 ^ Z.of_nat 1) with 10 in Hn; lia|].
    rewrite <- IH.
    + rewrite decimal_step by done. unfold field, zero_pad.
      rewrite length_app. simpl length.
      replace (Z.to_nat (Z.of_nat (S (S w))) - (length (decimal (n / 10)) + 1))%nat
        with (Z.to_nat (Z.of_nat (S w)) - length (decimal (n / 10)))%nat by lia.
      by rewrite <- app_assoc.
    + lia.
    + split; [apply Z.div_pos; lia|].
      apply Z.div_lt_upper_bound; [lia|].
      rewrite <- Z.pow_succ_r by lia.
      replace (Z.succ (Z.of_nat (S w))) with (Z.of_nat (S (S w))) by lia. lia.
Qed.

Lemma clock_text_fixed t :
  calendar t ->
  clock_text t
  = fixed 4 (year t) ++ str "-" ++ fixed 2 (month t) ++ str "-" ++ fixed 2 (day t)
      ++ str "T" ++ fixed 2 (hour t) ++ str ":" ++ fixed 2 (minute t)
      ++ str ":" ++ fixed 2 (second t).
Proof.
  intros (Hy & Hmo & Hd & Hh & Hmi & Hs). unfold clock_text.
  rewrite <- (field_fixed 4 (year t)) by (simpl; lia).
  rewrite <- !(field_fixed 2) by (simpl; lia). done.
Qed.

(** *** [fmt.Sprint] *)

Lemma doPrint_joined a : forall acc prev n,
  doPrint acc prev n a
  = acc ++
    match a with
    | [] => []
    | y :: _ =>
        (if (0 <? n)%nat && negb (is_string y) && negb prev then str " " else [])
          ++ joined a
    end.
Proof.
  induction a as [|x rest IH]; intros acc prev n.
  - simpl. by rewrite app_nil_r.
  - cbn [doPrint]. rewrite IH. cbn [joined].
    destruct rest as [|y rest'].
    + rewrite !app_nil_r.
      destruct ((0 <? n)%nat && negb (is_string x) && negb prev); by flat.
    + replace (0 <? S n)%nat with true by done.
      rewrite andb_true_l, (andb_comm (negb (is_string y))).
      destruct ((0 <? n)%nat && negb (is_string x) && negb prev); by flat.
Qed.

Lemma Sprint_joined a : Sprint a = joined a.
Proof. unfold Sprint. rewrite doPrint_joined. by destruct a. Qed.

Lemma joined_strings ss : joined (map VString ss) = concat ss.
Proof.
  induction ss as [|s ss IH]; [done|].
  cbn [map joined printArg is_string negb andb]. rewrite IH.
  destruct ss; simpl; by rewrite ?app_nil_r.
Qed.

(** *** The frame of the methods *)

Create HintDb frame discriminated.

Section Frame.
Context {W : Type} {W_Writer : Writer W}.

Lemma same_config_refl a : same_config a a.
Proof. by repeat split. Qed.

Lemma same_config_trans a b c :
  same_config a b -> same_config b c -> same_config a c.
Proof.
  intros (?&?&?&?) (?&?&?&?). repeat split; congruence.
Qed.

Lemma keeps_ret {A} (a : A) : keeps_config (W := W) (ret a).
Proof. intros w. apply same_config_refl. Qed.

Lemma keeps_panic {A} : keeps_config (W := W) (A := A) panic.
Proof. intros w. apply same_config_refl. Qed.

Lemma keeps_bind {A B} (m : M W A) (k : A -> M W B) :
  keeps_config m -> (forall a, keeps_config (k a)) -> keeps_config (bind m k).
Proof.
  intros Hm Hk w. unfold bind. specialize (Hm w).
  destruct (m w) as [[a|] w1]; [|done].
  eapply same_config_trans; [apply Hk|done].
Qed.

Lemma keeps_defer {A} (d : M W unit) (body : M W A) :
  keeps_config d -> keeps_config body -> keeps_config (defer d body).
Proof.
  intros Hd Hb w. unfold defer. specialize (Hb w).
  destruct (body w) as [r w1]. specialize (Hd w1).
  destruct (d w1) as [[[]|] w2]; by eapply same_config_trans.
Qed.

Lemma keeps_emit ev : keeps_config (W := W) (emit ev).
Proof. intros w. apply same_config_refl. Qed.

Lemma keeps_get_logger : keeps_config (W := W) get_logger.
Proof. intros w. apply same_config_refl. Qed.

Lemma keeps_set_buf b : keeps_config (W := W) (set_buf b).
Proof. intros w. by repeat split. Qed.

Lemma keeps_check {A} (o : option A) : keeps_config (W := W) (check o).
Proof. destruct o; [apply keeps_ret|apply keeps_panic]. Qed.

Lemma keeps_if {A} (c : bool) (m1 m2 : M W A) :
  keeps_config m1 -> keeps_config m2 -> keeps_config (if c then m1 else m2).
Proof. by destruct c. Qed.

Lemma keeps_out_Write : keeps_config out_Write.
Proof.
  intros w. unfold out_Write.
  destruct (heap w !! out (logger w)) as [k|]; [|apply same_config_refl].
  destruct (Write k (buf (logger w))). apply same_config_refl.
Qed.

Hint Resolve keeps_ret keeps_panic keeps_bind keeps_defer keeps_emit
  keeps_get_logger keeps_set_buf keeps_check keeps_if keeps_out_Write : frame.

Lemma keeps_append p : keeps_config (W := W) (append p).
Proof. unfold append. auto with frame. Qed.

Lemma keeps_itoa_buf i wid : keeps_config (W := W) (itoa_buf i wid).
Proof. unfold itoa_buf. auto 10 with frame. Qed.

Hint Resolve keeps_append keeps_itoa_buf : frame.

Lemma keeps_date now : keeps_config (W := W) (date now).
Proof. unfold date. auto 40 with frame. Qed.

Hint Resolve keeps_date : frame.

Lemma keeps_header level now file line :
  keeps_config (W := W) (header level now file line).
Proof. unfold header. auto 40 with frame. Qed.

Hint Resolve keeps_header : frame.

Lemma keeps_Output e l s : keeps_config (Output e l s).
Proof. unfold Output, time_Now, runtime_Caller. auto 40 with frame. Qed.

Hint Resolve keeps_Output : frame.

Lemma keeps_call Sprintf e c : keeps_config (call Sprintf e c).
Proof.
  destruct c; unfold call, Log, Logf, Debug, Debugf, Info, Infof, Warn, Warnf,
    Error, Errorf; auto with frame.
Qed.
End Frame.

(** ** The properties of the logger *)

Section Properties.
Context {W : Type} {W_Writer : Writer W}.
Implicit Types (h : gmap loc W) (t : list event) (b : bytes) (w : World W).

Lemma added_Output_filtered e l s w :
  l < min (logger w) -> added (Output e l s) w = [ENow; ELock; EUnlock].
Proof.
  intros Hlt. apply added_app. by rewrite Output_filtered.
Qed.

Lemma added_Output_run e l s label k w :
  min (logger w) <= l -> index (pre (logger w)) l = Some label ->
  valid_env e -> heap w !! out (logger w) = Some k ->
  added (Output e l s) w
  = prologue (flag (logger w))
      ++ [EWrite (out (logger w))
            (record_line label (now e) (flag (logger w)) (Caller e 2) s);
          EUnlock].
Proof.
  destruct w as [[o b mn p f] h t]. cbn [logger min pre heap out flag].
  intros Hge Hlabel He Hk. apply added_app.
  by rewrite (Output_run e l s label k).
Qed.

Lemma added_Output_panic e l s w :
  min (logger w) <= l -> index (pre (logger w)) l = None ->
  added (Output e l s) w = prologue (flag (logger w)) ++ [EUnlock].
Proof.
  destruct w as [[o b mn p f] h t]. cbn [logger min pre heap out flag].
  intros Hge Hnone. apply added_app. by rewrite Output_panic.
Qed.

(** C1. [Output] writes to the sink exactly when the severity of the
    record, one of the label array, is at least the threshold; a record
    below the threshold returns nil at once: no write, no change of the
    logger or its buffer, no lookup of the caller. *)
Theorem Output_writes_iff_threshold e l s w :
  (valid_env e -> live w -> in_labels l ->
     (writes (added (Output e l s) w) <> [] <-> min (logger w) <= l) /\
     (min (logger w) <= l -> length (writes (added (Output e l s) w)) = 1%nat))
  /\
  (l < min (logger w) ->
     fst (Output e l s w) = Ok None /\
     logger (snd (Output e l s w)) = logger w /\
     heap (snd (Output e l s w)) = heap w /\
     writes (added (Output e l s) w) = [] /\
     lookups (added (Output e l s) w) = O).
Proof.
  split.
  - intros He [k Hk] Hl.
    destruct (index_in_labels (pre (logger w)) l Hl) as [label Hlabel].
    destruct (Z.lt_ge_cases l (min (logger w))) as [Hlt|Hge].
    + rewrite added_Output_filtered by done. simpl. split; [|lia].
      split; [done|lia].
    + rewrite (added_Output_run e l s label k) by done.
      rewrite writes_app, writes_prologue. simpl. by split.
  - intros Hlt. rewrite added_Output_filtered, Output_filtered by done.
    by repeat split.
Qed.

(** C2. An unfiltered record makes one write to the sink, of exactly:
    the label of the severity, a space, the timestamp
    [YYYY-MM-DDTHH:MM:SS] with its zone designator, a space, the
    location [path:line: ] when a path flag is set, the message as it
    is, and one newline, the byte 10; the fields of the date and the time
    are of fixed width, padded with zeros. *)
Theorem Output_writes_record_line e l s label k w :
  valid_env e -> min (logger w) <= l ->
  index (pre (logger w)) l = Some label ->
  heap w !! out (logger w) = Some k ->
  writes (added (Output e l s) w)
  = [label ++ str " " ++ clock_text (now e) ++ zone_designator (offset (now e))
       ++ str " " ++ location (flag (logger w)) (Caller e 2) ++ s ++ ["010"%char]]
  /\ (calendar (now e) ->
      clock_text (now e)
      = fixed 4 (year (now e)) ++ str "-" ++ fixed 2 (month (now e)) ++ str "-"
          ++ fixed 2 (day (now e)) ++ str "T" ++ fixed 2 (hour (now e)) ++ str ":"
          ++ fixed 2 (minute (now e)) ++ str ":" ++ fixed 2 (second (now e)))
  /\ location (flag (logger w)) (Caller e 2)
     = (if located (flag (logger w)) then
          (if shortened (flag (logger w))
           then short_name (fst (resolved (Caller e 2)))
           else fst (resolved (Caller e 2)))
            ++ str ":" ++ decimal (snd (resolved (Caller e 2))) ++ str ": "
        else []).
Proof.
  intros He Hge Hlabel Hk. split; [|split].
  - rewrite (added_Output_run e l s label k) by done.
    rewrite writes_app, writes_prologue. simpl.
    unfold record_line, timestamp. by flat.
  - apply clock_text_fixed.
  - done.
Qed.

(** C3, amended. [date] renders the zone designator [Z] exactly when the
    offset is zero; for any other offset it is a sign, the hours and the
    minutes of the absolute offset, each padded with zeros to two digits,
    with a colon between them; the sign is [-] when the offset is minus
    one minute or below, and [+] otherwise. *)
Theorem date_zone_designator now o b mn p f h t :
  valid_time now ->
  exists d,
    date now (mkWorld (mkLogger o b mn p f) h t)
    = (Ok tt, mkWorld (mkLogger o (b ++ clock_text now ++ d) mn p f) h t)
    /\ (d = str "Z" <-> offset now = 0)
    /\ (offset now <> 0 ->
        d = (if offset now <=? -60 then "-"%char else "+"%char)
              :: field 2 (Z.abs (offset now) / 3600) ++ str ":"
              ++ field 2 (Z.abs (offset now) / 60 mod 60))
    /\ (offset now <> 0 -> Z.abs (offset now) < 360000 ->
        d = (if offset now <=? -60 then "-"%char else "+"%char)
              :: fixed 2 (Z.abs (offset now) / 3600) ++ str ":"
              ++ fixed 2 (Z.abs (offset now) / 60 mod 60)).
Proof.
  intros Hnow. exists (zone_designator (offset now)). split; [|split; [|split]].
  - by rewrite date_run.
  - unfold zone_designator.
    destruct (Z.eqb_spec (offset now) 0) as [Hz|Hnz]; [done|].
    split; [|done]. by destruct (offset now <=? -60).
  - intros Hnz. unfold zone_designator.
    by destruct (Z.eqb_spec (offset now) 0).
  - intros Hnz Hsmall. unfold zone_designator.
    destruct (Z.eqb_spec (offset now) 0); [done|].
    rewrite <- !(field_fixed 2); [done|lia| |lia|].
    + change (10 ^ Z.of_nat 2) with 100.
      split; [apply Z.mod_pos_bound; lia|].
      pose proof (Z.mod_pos_bound (Z.abs (offset now) / 60) 60 ltac:(lia)). lia.
    + change (10 ^ Z.of_nat 2) with 100.
      split; [apply Z.div_pos; lia|].
      apply Z.div_lt_upper_bound; lia.
Qed.

(** X15. With both path flags set [Output] returns what it returns and
    writes the line it writes with the short-path flag alone; the path of
    the line is the one the shortening loop leaves. *)
Theorem Output_short_path_wins e l s label k o b mn p f h t :
  both_paths f -> valid_env e -> mn <= l ->
  index p l = Some label -> h !! o = Some k ->
  writes (added (Output e l s) (mkWorld (mkLogger o b mn p f) h t))
  = writes (added (Output e l s) (mkWorld (mkLogger o b mn p FlagShortPath) h t))
  /\ fst (Output e l s (mkWorld (mkLogger o b mn p f) h t))
     = fst (Output e l s (mkWorld (mkLogger o b mn p FlagShortPath) h t))
  /\ writes (added (Output e l s) (mkWorld (mkLogger o b mn p f) h t))
     = [label ++ str " " ++ timestamp (now e) ++ str " "
          ++ short_name (fst (resolved (Caller e 2))) ++ str ":"
          ++ decimal (snd (resolved (Caller e 2))) ++ str ": " ++ s ++ newline].
Proof.
  intros [_ Hshort] He Hge Hlabel Hk.
  assert (Hloc : location f (Caller e 2) = location FlagShortPath (Caller e 2)).
  { unfold location, shortened. rewrite (located_short f Hshort).
    destruct (Z.eqb_spec (Z.land f FlagShortPath) 0); done. }
  assert (Hline : record_line label (now e) f (Caller e 2) s
                  = record_line label (now e) FlagShortPath (Caller e 2) s).
  { unfold record_line. by rewrite Hloc. }
  rewrite !(added_Output_run e l s label k) by done.
  rewrite !(Output_run e l s label k) by done.
  cbn [logger flag out fst].
  rewrite !writes_app, !writes_prologue. cbn [writes app].
  rewrite Hline. repeat split.
  unfold record_line, location.
  change (located FlagShortPath) with true.
  change (shortened FlagShortPath) with true.
  cbn iota. by flat.
Qed.
End Properties.

Section MoreProperties.
Context {W : Type} {W_Writer : Writer W}.
Implicit Types (h : gmap loc W) (t : list event) (b : bytes) (w : World W).

Lemma call_Output Sprintf e c w :
  call Sprintf e c w
  = (Output e (wrapper_level c) (wrapper_text Sprintf c) ;;; ret tt) w.
Proof. by destruct c. Qed.

Lemma Output_returns e l s w :
  valid_env e -> live w -> in_labels l -> exists r, fst (Output e l s w) = Ok r.
Proof.
  intros He [k Hk] Hl.
  destruct (index_in_labels (pre (logger w)) l Hl) as [label Hlabel].
  destruct (Z.lt_ge_cases l (min (logger w))) as [Hlt|Hge].
  - rewrite Output_filtered by done. by eexists.
  - destruct w as [[o b mn p f] h t]. cbn [logger min pre heap out] in *.
    rewrite (Output_run e l s label k) by done. by eexists.
Qed.

Lemma named_in_labels c : named c = true -> in_labels (wrapper_level c).
Proof. destruct c; simpl; try done; intros _; unfold in_labels; simpl; lia. Qed.

(** C6, amended. A variadic method emits, at its severity, the message
    of [fmt.Sprint]: the default formats of the operands one after the
    other, with a space between two neighbours when neither is a string;
    for strings alone that is their concatenation, so that [Info("a",
    "b")] is [Output] with ["ab"], and [Infof("%d-%s", 3, "x")] has the
    message ["3-x"]. *)
Theorem variadic_methods_join_operands Sprintf e w :
  (forall l v, Log e l v w = (Output e l (joined v) ;;; ret tt) w)
  /\ (forall v, Debug e v w = (Output e LevelDebug (joined v) ;;; ret tt) w)
  /\ (forall v, Info e v w = (Output e LevelInfo (joined v) ;;; ret tt) w)
  /\ (forall v, Warn e v w = (Output e LevelWarn (joined v) ;;; ret tt) w)
  /\ (forall v, Error e v w = (Output e LevelError (joined v) ;;; ret tt) w)
  /\ (forall ss, joined (map VString ss) = concat ss)
  /\ Info e [VString (str "a"); VString (str "b")] w
     = (Output e LevelInfo (str "ab") ;;; ret tt) w
  /\ (extends_plain Sprintf ->
      Infof Sprintf e (str "%d-%s") [VInt 3; VString (str "x")] w
      = (Output e LevelInfo (str "3-x") ;;; ret tt) w).
Proof.
  unfold Log, Debug, Info, Warn, Error, Infof.
  repeat (split; [intros; by rewrite Sprint_joined|]).
  split; [apply joined_strings|].
  split; [done|].
  intros Hplain.
  by rewrite (Hplain (str "%d-%s") [VInt 3; VString (str "x")] (str "3-x")).
Qed.

(** C7. [Output] returns nil for a filtered record and otherwise exactly
    what the write of the sink reports; every convenience method returns
    nothing, without a panic, whatever the sink reports. *)
Theorem Output_returns_sink_failure Sprintf e w :
  (forall l s, l < min (logger w) -> fst (Output e l s w) = Ok None)
  /\ (forall l s label k,
        valid_env e -> min (logger w) <= l ->
        index (pre (logger w)) l = Some label ->
        heap w !! out (logger w) = Some k ->
        fst (Output e l s w)
        = Ok (snd (snd (Write k (record_line label (now e) (flag (logger w))
                                   (Caller e 2) s)))))
  /\ (forall c,
        valid_env e -> live w ->
        in_labels (wrapper_level c) \/ wrapper_level c < min (logger w) ->
        fst (call Sprintf e c w) = Ok tt)
  /\ (forall c, named c = true -> in_labels (wrapper_level c)).
Proof.
  split; [|split; [|split]].
  - intros l s Hlt. by rewrite Output_filtered.
  - intros l s label k He Hge Hlabel Hk.
    destruct w as [[o b mn p f] h t]. cbn [logger min pre heap out flag] in *.
    by rewrite (Output_run e l s label k).
  - intros c He Hlive Hl. rewrite call_Output. unfold bind.
    assert (exists r, fst (Output e (wrapper_level c) (wrapper_text Sprintf c) w)
                      = Ok r) as [r Hr].
    { destruct Hl as [Hl|Hlt]; [by apply Output_returns|].
      rewrite Output_filtered by done. by eexists. }
    destruct (Output e (wrapper_level c) (wrapper_text Sprintf c) w) as [r' w'].
    simpl in Hr. by subst r'.
  - apply named_in_labels.
Qed.

(** C8, amended. In the default label set each of the four severities,
    [LevelDebug] to [LevelError], has a label that is not empty, of five
    characters; the fifth element of the array is the empty string. *)
Theorem default_labels_of_severities i :
  LevelDebug <= i <= LevelError ->
  (exists label,
      index DefaultLevelStrings i = Some label /\
      label <> [] /\ length label = 5%nat)
  /\ index DefaultLevelStrings 4 = Some [].
Proof.
  unfold LevelDebug, LevelError. intros Hi. split; [|done].
  assert (i = 0 \/ i = 1 \/ i = 2 \/ i = 3) as Hcases by lia.
  destruct Hcases as [->|[->|[-> | ->]]]; simpl; eexists; by repeat split.
Qed.

(** C9. [Output] and every convenience method leave the sink reference,
    the threshold, the labels and the flags of the logger as they were:
    of the fields of the logger only the buffer changes. *)
Theorem emission_keeps_configuration Sprintf e w :
  (forall l s, same_config (logger (snd (Output e l s w))) (logger w))
  /\ (forall c, same_config (logger (snd (call Sprintf e c w))) (logger w)).
Proof.
  split.
  - intros l s. apply keeps_Output.
  - intros c. apply keeps_call.
Qed.

(** C10. For an unfiltered record the lookup [pre[L]] of [header] is in
    bounds when [0 <= L <= 4], and [Output] returns; for any other [L]
    the lookup is out of bounds: [Output] panics and writes nothing. *)
Theorem Output_label_lookup e l s w :
  valid_env e -> live w -> min (logger w) <= l ->
  (in_labels l ->
     is_Some (index (pre (logger w)) l) /\
     exists r, fst (Output e l s w) = Ok r)
  /\ (~ in_labels l ->
      index (pre (logger w)) l = None /\
      fst (Output e l s w) = Panic /\
      writes (added (Output e l s) w) = []).
Proof.
  intros He Hlive Hge. split.
  - intros Hl. split; [by apply index_in_labels|by apply Output_returns].
  - intros Hl. pose proof (index_outside (pre (logger w)) l Hl) as Hnone.
    split; [done|].
    rewrite added_Output_panic by done.
    rewrite writes_app, writes_prologue.
    destruct w as [[o b mn p f] h t]. cbn [logger min pre heap out flag] in *.
    by rewrite Output_panic.
Qed.
End MoreProperties.

(** ** The properties at concrete inputs *)

(** Hypotheses on concrete inputs, by computation. *)
Ltac concrete :=
  unfold valid_env, valid_time, calendar, nat_int, is_int, in_labels, both_paths,
    int_min, int_max, live;
  cbn;
  repeat split;
  first [ lia | done | by eexists | by vm_compute ].

Lemma Output_writes_iff_threshold_witness :
  (writes (added (Output (env_at 0 (str "main.go")) LevelError (str "x"))
             (world_of LevelWarn 0 false)) <> []
   <-> min (logger (world_of LevelWarn 0 false)) <= LevelError)
  /\ writes (added (Output (env_at 0 (str "main.go")) LevelInfo (str "x"))
               (world_of LevelWarn 0 false)) = [].
Proof.
  pose proof (Output_writes_iff_threshold (env_at 0 (str "main.go")) LevelError
                (str "x") (world_of LevelWarn 0 false)) as [Hrun _].
  pose proof (Output_writes_iff_threshold (env_at 0 (str "main.go")) LevelInfo
                (str "x") (world_of LevelWarn 0 false)) as [_ Hskip].
  split.
  - apply Hrun; concrete.
  - apply Hskip. concrete.
Defined.

Lemma Output_writes_record_line_witness :
  writes (added (Output (env_at (-25200) (str "/a/b/main.go")) LevelError
                   (str "failed to connect")) (world_of LevelDebug FlagShortPath false))
  = [str "ERROR 2024-03-02T15:04:05-07:00 main.go:42: failed to connect"
       ++ ["010"%char]].
Proof.
  pose proof (Output_writes_record_line (env_at (-25200) (str "/a/b/main.go"))
                LevelError (str "failed to connect") (str "ERROR")
                (mkMemSink [] false) (world_of LevelDebug FlagShortPath false))
    as Hline.
  destruct Hline as [Hline _]; [concrete..|].
  rewrite Hline. by vm_compute.
Defined.

Lemma date_zone_designator_witness :
  valid_time (clock_at 12600) /\
  exists d,
    date (clock_at 12600) (world_of LevelDebug 0 false)
    = (Ok tt,
       mkWorld (mkLogger O ([] ++ clock_text (clock_at 12600) ++ d) LevelDebug
                  DefaultLevelStrings 0)
         {[ O := mkMemSink [] false ]} [])
    /\ d = str "+03:30".
Proof.
  assert (Hnow : valid_time (clock_at 12600)) by concrete.
  split; [exact Hnow|].
  destruct (date_zone_designator (W := MemSink) (clock_at 12600) O [] LevelDebug
              DefaultLevelStrings 0 {[ O := mkMemSink [] false ]} [] Hnow)
    as (d & Hrun & _ & Hd & _).
  exists d. split; [exact Hrun|].
  rewrite Hd by done. by vm_compute.
Defined.

(** C3, as stated, fails 30 seconds west of UTC: the offset is negative
    and the designator rendered is [+00:00]. *)
Lemma date_sign_counterexample :
  buf (logger (snd (date (clock_at (-30)) (world_of LevelDebug 0 false))))
  = str "2024-03-02T15:04:05+00:00"
  /\ clock_text (clock_at (-30)) ++ signed_designator (-30)
     = str "2024-03-02T15:04:05-00:00"
  /\ buf (logger (snd (date (clock_at (-30)) (world_of LevelDebug 0 false))))
     <> clock_text (clock_at (-30)) ++ signed_designator (-30).
Proof. by vm_compute. Qed.

(** C4. With the short-path flag the path of the header is the part after
    the last separator; [header] misses a separator in first position:
    it leaves [/main.go] as it is, where the final segment is [main.go]. *)
Theorem short_path_leading_separator :
  short_path (str "/main.go") = Some (str "/main.go")
  /\ base_name (str "/main.go") = str "main.go"
  /\ short_path (str "/a/b/c.go") = Some (base_name (str "/a/b/c.go"))
  /\ short_path (str "a/b/") = Some (base_name (str "a/b/"))
  /\ short_path (str "c.go") = Some (base_name (str "c.go"))
  /\ writes (added (Output (env_at 0 (str "/main.go")) LevelInfo (str "x"))
               (world_of LevelDebug FlagShortPath false))
     = [str "INFO  2024-03-02T15:04:05Z /main.go:42: x" ++ newline].
Proof. by vm_compute. Qed.

(** C5. With both path flags set the short path wins, and the header
    holds the final segment of the path; the shortening loop of [header]
    misses a separator in first position: with both flags and the path
    [/main.go] the line is the one of the short-path flag alone, but it
    holds [/main.go], where the final segment is [main.go]. *)
Theorem both_paths_leading_separator :
  Z.land 3 FlagLongPath <> 0 /\ Z.land 3 FlagShortPath <> 0
  /\ writes (added (Output (env_at 0 (str "/main.go")) LevelInfo (str "x"))
               (mkWorld (mkLogger O [] LevelDebug DefaultLevelStrings 3)
                  {[ O := mkMemSink [] false ]} []))
     = [str "INFO  2024-03-02T15:04:05Z /main.go:42: x" ++ ["010"%char]]
  /\ writes (added (Output (env_at 0 (str "/main.go")) LevelInfo (str "x"))
               (mkWorld (mkLogger O [] LevelDebug DefaultLevelStrings 3)
                  {[ O := mkMemSink [] false ]} []))
     = writes (added (Output (env_at 0 (str "/main.go")) LevelInfo (str "x"))
                 (mkWorld (mkLogger O [] LevelDebug DefaultLevelStrings FlagShortPath)
                    {[ O := mkMemSink [] false ]} []))
  /\ base_name (str "/main.go") = str "main.go"
  /\ writes (added (Output (env_at 0 (str "/a/b/c.go")) LevelInfo (str "x"))
               (mkWorld (mkLogger O [] LevelDebug DefaultLevelStrings 3)
                  {[ O := mkMemSink [] false ]} []))
     = [str "INFO  2024-03-02T15:04:05Z " ++ base_name (str "/a/b/c.go")
          ++ str ":42: x" ++ ["010"%char]].
Proof. repeat split; by vm_compute. Qed.

Lemma Output_short_path_wins_witness :
  both_paths 3 /\
  writes (added (Output (env_at 0 (str "/a/b/c.go")) LevelWarn (str "x"))
            (mkWorld (mkLogger O [] LevelDebug DefaultLevelStrings 3)
               {[ O := mkMemSink [] false ]} []))
  = [str "WARN  2024-03-02T15:04:05Z c.go:42: x" ++ newline].
Proof.
  assert (Hboth : both_paths 3) by concrete.
  split; [exact Hboth|].
  destruct (Output_short_path_wins (env_at 0 (str "/a/b/c.go")) LevelWarn (str "x")
              (str "WARN ") (mkMemSink [] false) O [] LevelDebug
              DefaultLevelStrings 3 {[ O := mkMemSink [] false ]} [] Hboth)
    as (_ & _ & Hline); [concrete..|].
  rewrite Hline. by vm_compute.
Defined.

(** C6, as stated, fails on two integers: [Info(1, 2)] has the message
    [1 2], and the operands with no separator are [12]. *)
Lemma Info_integers_counterexample :
  Sprint [VInt 1; VInt 2] = str "1 2"
  /\ concatenated [VInt 1; VInt 2] = str "12"
  /\ writes (added (Info (env_at 0 (str "main.go")) [VInt 1; VInt 2])
               (world_of LevelDebug 0 false))
     = [str "INFO  2024-03-02T15:04:05Z 1 2" ++ newline]
  /\ writes (added (Info (env_at 0 (str "main.go")) [VInt 1; VInt 2])
               (world_of LevelDebug 0 false))
     <> writes (added (Output (env_at 0 (str "main.go")) LevelInfo
                         (concatenated [VInt 1; VInt 2]))
                  (world_of LevelDebug 0 false)).
Proof. by vm_compute. Qed.

Lemma variadic_methods_join_operands_witness :
  extends_plain Sprintf_default /\
  Infof Sprintf_default (env_at 0 (str "main.go")) (str "%d-%s")
    [VInt 3; VString (str "x")] (world_of LevelDebug 0 false)
  = (Output (env_at 0 (str "main.go")) LevelInfo (str "3-x") ;;; ret tt)
      (world_of LevelDebug 0 false).
Proof.
  assert (Hplain : extends_plain Sprintf_default).
  { intros format a t Ht. unfold Sprintf_default. by rewrite Ht. }
  split; [exact Hplain|].
  by apply (variadic_methods_join_operands Sprintf_default
              (env_at 0 (str "main.go")) (world_of LevelDebug 0 false)).
Defined.

Lemma Output_returns_sink_failure_witness :
  fst (Output (env_at 0 (str "main.go")) LevelError (str "x")
         (world_of LevelDebug 0 true))
  = Ok (Some (str "sink is closed"))
  /\ fst (call Sprintf_default (env_at 0 (str "main.go"))
            (WError [VString (str "x")]) (world_of LevelDebug 0 true))
     = Ok tt
  /\ fst (Output (env_at 0 (str "main.go")) LevelInfo (str "x")
            (world_of LevelWarn 0 true))
     = Ok None.
Proof.
  destruct (Output_returns_sink_failure Sprintf_default (env_at 0 (str "main.go"))
              (world_of LevelDebug 0 true)) as (_ & Hfail & Hwrap & _).
  destruct (Output_returns_sink_failure Sprintf_default (env_at 0 (str "main.go"))
              (world_of LevelWarn 0 true)) as (Hskip & _).
  split; [|split].
  - rewrite (Hfail LevelError (str "x") (str "ERROR") (mkMemSink [] true));
      [done|concrete..].
  - apply Hwrap; [concrete..|left; concrete].
  - apply Hskip. concrete.
Defined.

(** C8, as stated, fails at the fifth element of the array, the empty
    string. *)
Lemma default_labels_counterexample :
  index DefaultLevelStrings 4 = Some []
  /\ ~ (forall i, 0 <= i <= 4 ->
          exists label, index DefaultLevelStrings i = Some label /\ label <> []).
Proof.
  split; [done|]. intros Hall.
  destruct (Hall 4 ltac:(lia)) as (label & Hlabel & Hne).
  apply Hne. simpl in Hlabel. congruence.
Qed.

Lemma default_labels_of_severities_witness :
  LevelDebug <= LevelWarn <= LevelError /\
  exists label,
    index DefaultLevelStrings LevelWarn = Some label /\
    label <> [] /\ length label = 5%nat.
Proof.
  assert (Hi : LevelDebug <= LevelWarn <= LevelError) by concrete.
  split; [exact Hi|].
  exact (proj1 (default_labels_of_severities LevelWarn Hi)).
Defined.

Lemma Output_label_lookup_witness :
  valid_env (env_at 0 (str "main.go")) /\ live (world_of LevelDebug 0 false) /\
  fst (Output (env_at 0 (str "main.go")) 5 (str "x") (world_of LevelDebug 0 false))
  = Panic
  /\ exists r,
      fst (Output (env_at 0 (str "main.go")) 4 (str "x") (world_of LevelDebug 0 false))
      = Ok r.
Proof.
  assert (He : valid_env (env_at 0 (str "main.go"))) by concrete.
  assert (Hlive : live (world_of LevelDebug 0 false)) by concrete.
  split; [exact He|]. split; [exact Hlive|]. split.
  - apply (Output_label_lookup (env_at 0 (str "main.go")) 5 (str "x")
             (world_of LevelDebug 0 false) He Hlive); concrete.
  - apply (Output_label_lookup (env_at 0 (str "main.go")) 4 (str "x")
             (world_of LevelDebug 0 false) He Hlive); concrete.
Defined.

(** ** Further properties of [itoa] *)

Lemma decimal_nonempty n : (1 <= length (decimal n))%nat.
Proof.
  unfold decimal. destruct (Z.to_nat (Z.log2 n)); simpl; [lia|].
  destruct (n <? 10); simpl; [lia|]. rewrite length_app. simpl. lia.
Qed.

Lemma digits_value_zeros k d :
  digits_value (replicate k "0"%char ++ d) = digits_value d.
Proof.
  unfold digits_value. rewrite fold_left_app. f_equal.
  induction k as [|k IH]; [done|]. simpl. exact IH.
Qed.

Lemma length_fixed w n : length (fixed w n) = w.
Proof.
  revert n. induction w as [|w IH]; intros n; [done|].
  cbn [fixed]. rewrite length_app, IH. simpl. lia.
Qed.

(** The loop keeps the size of the array and never moves up. *)
Lemma itoa_loop_inv bp : forall b i wid b' bp' i',
  itoa_loop bp b i wid = Some (b', bp', i') ->
  length b' = length b /\ (bp' <= bp)%nat.
Proof.
  induction bp as [|bp IH]; intros b i wid b' bp' i'; simpl.
  - destruct ((10 <=? i) || (1 <? wid)); [done|].
    intros [= <- <- <-]. by split.
  - destruct ((10 <=? i) || (1 <? wid)).
    + intros Hrun. apply IH in Hrun as [Hlen Hle].
      rewrite length_insert in Hlen. split; [done|lia].
    + intros [= <- <- <-]. by split.
Qed.

(** A width beyond the array runs the loop off its lower end. *)
Lemma itoa_loop_wide bp : forall b i wid,
  Z.of_nat bp + 1 < wid <= int_max -> itoa_loop bp b i wid = None.
Proof.
  induction bp as [|bp IH]; intros b i wid Hwid; simpl.
  - destruct (Z.ltb_spec 1 wid); [|lia]. by rewrite orb_true_r.
  - destruct (Z.ltb_spec 1 wid); [|lia]. rewrite orb_true_r.
    apply IH. unfold int_sub.
    rewrite wrap_id by (unfold is_int, int_min, int_max in *; lia). lia.
Qed.

(** Below ten only the width keeps the loop running. *)
Lemma itoa_loop_small bp : forall b i wid,
  i < 10 -> int_min + Z.of_nat bp < wid <= Z.of_nat bp + 1 -> (bp < 20)%nat ->
  is_Some (itoa_loop bp b i wid).
Proof.
  induction bp as [|bp IH]; intros b i wid Hi Hwid Hbp; simpl.
  - destruct (Z.leb_spec 10 i); [lia|]. destruct (Z.ltb_spec 1 wid); [lia|].
    by eexists.
  - destruct (Z.leb_spec 10 i); [lia|].
    destruct (Z.ltb_spec 1 wid); simpl; [|by eexists].
    apply IH.
    + unfold int_quo. Z.to_euclidean_division_equations; lia.
    + unfold int_sub.
      rewrite wrap_id by (unfold is_int, int_min, int_max in *; lia). lia.
    + lia.
Qed.

Lemma is_digit_digit d : 0 <= d < 10 -> is_digit (digit d) = true.
Proof.
  intros Hd. unfold is_digit, digit. rewrite N_ascii_embedding by lia.
  rewrite Z2N.id by lia. apply andb_true_iff. split; lia.
Qed.

Lemma digit_not_zero d : 1 <= d < 10 -> digit d <> "0"%char.
Proof.
  intros Hd Heq. pose proof (digit_value d ltac:(lia)) as Hv.
  rewrite Heq in Hv. simpl in Hv. lia.
Qed.

Lemma decimal_fuel_digits f : forall n,
  0 <= n -> n < 10 ^ (Z.of_nat f + 1) ->
  Forall (fun c => is_digit c = true) (decimal_fuel f n).
Proof.
  induction f as [|f IH]; intros n Hn Hlt.
  - change (10 ^ (Z.of_nat 0 + 1)) with 10 in Hlt.
    repeat constructor. apply is_digit_digit. lia.
  - simpl. destruct (Z.ltb_spec n 10).
    + repeat constructor. apply is_digit_digit. lia.
    + apply Forall_app. split.
      * apply IH; [apply Z.div_pos; lia|].
        apply Z.div_lt_upper_bound; [lia|].
        rewrite <- Z.pow_succ_r by lia.
        replace (Z.succ (Z.of_nat f + 1)) with (Z.of_nat (S f) + 1) by lia. done.
      * repeat constructor. apply is_digit_digit. apply Z.mod_pos_bound. lia.
Qed.

Lemma decimal_digits n : 0 <= n -> Forall (fun c => is_digit c = true) (decimal n).
Proof.
  intros Hn. apply decimal_fuel_digits; [done|]. by apply log2_fuel_enough.
Qed.

Lemma decimal_fuel_leading f : forall n,
  1 <= n -> n < 10 ^ (Z.of_nat f + 1) ->
  exists c rest, decimal_fuel f n = c :: rest /\ c <> "0"%char.
Proof.
  induction f as [|f IH]; intros n Hn Hlt.
  - change (10 ^ (Z.of_nat 0 + 1)) with 10 in Hlt.
    exists (digit n), []. split; [done|]. apply digit_not_zero. lia.
  - simpl. destruct (Z.ltb_spec n 10).
    + exists (digit n), []. split; [done|]. apply digit_not_zero. lia.
    + destruct (IH (n / 10)) as (c & rest & Heq & Hc).
      * apply Z.div_le_lower_bound; lia.
      * apply Z.div_lt_upper_bound; [lia|].
        rewrite <- Z.pow_succ_r by lia.
        replace (Z.succ (Z.of_nat f + 1)) with (Z.of_nat (S f) + 1) by lia. done.
      * rewrite Heq. by exists c, (rest ++ [digit (n mod 10)]).
Qed.

Lemma decimal_leading n : 1 <= n -> head (decimal n) <> Some "0"%char.
Proof.
  intros Hn.
  destruct (decimal_fuel_leading (Z.to_nat (Z.log2 n)) n Hn) as (c & rest & Heq & Hc).
  - apply log2_fuel_enough. lia.
  - unfold decimal. rewrite Heq. simpl. congruence.
Qed.

(** X1. [itoa] writes a number that reads back: for a non-negative [int] and
    a width within the array, the bytes appended are decimal digits whose
    value is the number, at least [wid] of them and at least one, exactly
    [wid] when the number fits the width, with no zero in front beyond
    the width, and the bare notation for a width below two. *)
Theorem itoa_round_trip buf i wid :
  nat_int i -> int_min + 19 < wid <= 20 ->
  exists d,
    itoa buf i wid = Some (buf ++ d)
    /\ Forall (fun c => is_digit c = true) d
    /\ digits_value d = i
    /\ (Z.to_nat wid <= length d)%nat
    /\ (1 <= length d)%nat
    /\ ((Nat.max (Z.to_nat wid) 1 < length d)%nat -> head d <> Some "0"%char)
    /\ (0 < wid -> i < 10 ^ wid -> length d = Z.to_nat wid)
    /\ (wid <= 1 -> d = decimal i).
Proof.
  intros Hi Hwid. exists (field wid i). split; [by apply itoa_spec|].
  destruct Hi as [Hi0 Himax].
  pose proof (decimal_nonempty i) as Hne.
  split; [|split; [|split; [|split; [|split; [|split]]]]].
  - unfold field, zero_pad. apply Forall_app. split.
    + by apply Forall_replicate.
    + by apply decimal_digits.
  - unfold field, zero_pad. rewrite digits_value_zeros. by apply decimal_value.
  - unfold field, zero_pad. rewrite length_app, length_replicate. lia.
  - unfold field, zero_pad. rewrite length_app, length_replicate. lia.
  - unfold field, zero_pad. rewrite length_app, length_replicate. intros Hlong.
    replace (Z.to_nat wid - length (decimal i))%nat with O by lia. simpl.
    apply decimal_leading.
    destruct (Z.lt_ge_cases i 10) as [Hsmall|]; [|lia].
    rewrite decimal_small in Hlong by lia. simpl in Hlong. lia.
  - intros Hpos Hfit.
    rewrite <- (Z2Nat.id wid) at 1 by lia.
    rewrite field_fixed; [apply length_fixed|lia|].
    rewrite Z2Nat.id by lia. lia.
  - intros Hbare. unfold field, zero_pad.
    by replace (Z.to_nat wid - length (decimal i))%nat with O by lia.
Qed.

Lemma length_decimal_fuel f n : (length (decimal_fuel f n) <= S f)%nat.
Proof.
  revert n. induction f as [|f IH]; intros n; simpl; [lia|].
  destruct (n <? 10); simpl; [lia|].
  rewrite length_app. simpl. specialize (IH (n / 10)). lia.
Qed.

Lemma length_decimal_bound k n :
  0 <= n < 10 ^ (Z.of_nat k + 1) -> (length (decimal n) <= S k)%nat.
Proof.
  intros [Hn Hlt]. unfold decimal.
  rewrite (decimal_fuel_enough _ k n); [apply length_decimal_fuel|done| |done].
  by apply log2_fuel_enough.
Qed.

(** With a width of one or less only the digits keep the loop running,
    and it runs off the array exactly when the width, one less at every
    digit, passes the smallest [int] and wraps around. *)
Lemma itoa_loop_low bp : forall b i wid,
  0 <= i -> i < 10 ^ (Z.of_nat bp + 1) -> int_min <= wid <= 1 -> (bp < 20)%nat ->
  (itoa_loop bp b i wid = None
   <-> 10 <= i /\ wid < int_min + Z.of_nat (length (decimal i)) - 1).
Proof.
  induction bp as [|bp IH]; intros b i wid Hi Hlt Hwid Hbp.
  - change (10 ^ (Z.of_nat 0 + 1)) with 10 in Hlt. simpl.
    destruct (Z.leb_spec 10 i); [lia|]. destruct (Z.ltb_spec 1 wid); [lia|].
    simpl. split; [done|lia].
  - simpl. destruct (Z.ltb_spec 1 wid); [lia|].
    destruct (Z.leb_spec 10 i) as [Hbig|Hsmall]; simpl; [|split; [done|lia]].
    rewrite (decimal_step i) by done. rewrite length_app. simpl length.
    pose proof (decimal_nonempty (i / 10)) as Hne.
    unfold int_quo. rewrite Z.quot_div_nonneg by lia.
    destruct (Z.eq_dec wid int_min) as [->|Hne_min].
    + replace (int_sub int_min 1) with int_max by (by vm_compute).
      rewrite itoa_loop_wide by (unfold int_max; lia).
      split; [|done]. intros _. split; [done|]. lia.
    + replace (int_sub wid 1) with (wid - 1)
        by (unfold int_sub; rewrite wrap_id;
            [done|unfold is_int, int_min, int_max in *; lia]).
      rewrite IH; [|apply Z.div_pos; lia| |lia|lia].
      * split.
        -- intros [_ Hw]. split; [done|]. lia.
        -- intros [_ Hw]. split; [|lia].
           destruct (Z.lt_ge_cases (i / 10) 10) as [Hq|]; [|done].
           rewrite decimal_small in Hw by (split; [apply Z.div_pos; lia|done]).
           simpl in Hw. lia.
      * apply Z.div_lt_upper_bound; [lia|].
        rewrite <- Z.pow_succ_r by lia.
        replace (Z.succ (Z.of_nat bp + 1)) with (Z.of_nat (S bp) + 1) by lia. done.
Qed.

Lemma itoa_loop_stops bp b i wid :
  i < 10 -> wid <= 1 -> itoa_loop bp b i wid = Some (b, bp, i).
Proof.
  intros Hi Hwid. destruct bp; simpl;
    destruct (Z.leb_spec 10 i); try lia; destruct (Z.ltb_spec 1 wid); try lia; done.
Qed.

(** X2. For any number and any width, [itoa] panics exactly when the width
    exceeds the twenty bytes of its array, or when the number has two
    digits or more and the width, one less at every digit, passes the
    smallest [int] and wraps around; otherwise it appends between one and
    twenty bytes to the buffer and leaves what was there. *)
Theorem itoa_panics_iff_wide buf i wid :
  is_int i -> is_int wid ->
  (itoa buf i wid = None
   <-> 20 < wid
       \/ (10 <= i /\ wid < int_min + Z.of_nat (length (decimal i)) - 1))
  /\ (forall r, itoa buf i wid = Some r ->
        exists d, r = buf ++ d /\ (1 <= length d <= 20)%nat).
Proof.
  intros Hi Hwid. split.
  - destruct (Z.lt_ge_cases 20 wid) as [Hwide|Hle].
    + split; [by left|]. intros _. unfold itoa.
      rewrite itoa_loop_wide; [done|]. unfold is_int in Hwid. simpl. lia.
    + assert (Hlen : 10 <= i -> (length (decimal i) <= 19)%nat).
      { intros Hbig. apply (length_decimal_bound 18).
        unfold is_int, int_max in Hi. change (10 ^ (Z.of_nat 18 + 1)) with (10 ^ 19).
        lia. }
      destruct (Z.lt_ge_cases (int_min + 19) wid) as [Hmid|Hlow].
      * split; [|intros [?|[Hbig Hw]]; [lia|specialize (Hlen Hbig); lia]].
        intros Hnone. exfalso.
        destruct (Z.lt_ge_cases i 10) as [Hsmall|Hbig].
        -- unfold itoa in Hnone.
           destruct (itoa_loop_small 19 (replicate 20 zero_byte) i wid)
             as [[[b' bp'] i'] Hrun]; [done|simpl; lia|lia|].
           by rewrite Hrun in Hnone.
        -- rewrite (itoa_spec buf i wid) in Hnone; [done| |lia].
           unfold nat_int. unfold is_int in Hi. lia.
      * assert (Hw1 : int_min <= wid <= 1).
        { unfold is_int in Hwid. unfold int_min in *. lia. }
        destruct (Z.lt_ge_cases i 10) as [Hsmall|Hbig].
        -- unfold itoa. rewrite itoa_loop_stops by lia.
           split; [done|]. intros [?|[? _]]; lia.
        -- pose proof (itoa_loop_low 19 (replicate 20 zero_byte) i wid) as Hloop.
           unfold itoa.
           destruct (itoa_loop 19 (replicate 20 zero_byte) i wid)
             as [[[b' bp'] i']|] eqn:Hrun.
           ++ split; [done|]. intros [?|Hw]; [lia|].
              apply Hloop in Hw; [done|lia| |done|lia].
              unfold is_int, int_max in Hi.
              change (10 ^ (Z.of_nat 19 + 1)) with (10 ^ 20). lia.
           ++ split; [|done]. intros _. right.
              apply Hloop; [lia| |done|lia|done].
              unfold is_int, int_max in Hi.
              change (10 ^ (Z.of_nat 19 + 1)) with (10 ^ 20). lia.
  - intros r. unfold itoa.
    destruct (itoa_loop 19 (replicate 20 zero_byte) i wid)
      as [[[b' bp'] i']|] eqn:Hrun; [|done].
    intros [= <-]. eexists. split; [done|].
    apply itoa_loop_inv in Hrun as [Hlen Hle].
    rewrite length_replicate in Hlen.
    rewrite length_drop, length_insert. lia.
Qed.

(** ** What the formatting touches *)

Create HintDb scratch discriminated.

Section Scratch.
Context {W : Type} {W_Writer : Writer W}.
Implicit Types (w : World W) (b : bytes).

Lemma with_buf_same w : with_buf w (buf (logger w)) = w.
Proof. by destruct w as [[o b mn p f] h t]. Qed.

Lemma with_buf_twice w b b' : with_buf (with_buf w b) b' = with_buf w b'.
Proof. done. Qed.

Lemma buf_only_ret {A} (a : A) : buf_only (W := W) (ret a).
Proof. intros w. exists (buf (logger w)). by rewrite with_buf_same. Qed.

Lemma buf_only_panic {A} : buf_only (W := W) (A := A) panic.
Proof. intros w. exists (buf (logger w)). by rewrite with_buf_same. Qed.

Lemma buf_only_bind {A B} (m : M W A) (k : A -> M W B) :
  buf_only m -> (forall a, buf_only (k a)) -> buf_only (bind m k).
Proof.
  intros Hm Hk w. unfold bind. destruct (Hm w) as [b Hb].
  destruct (m w) as [[a|] w1]; simpl in Hb; subst w1.
  - destruct (Hk a (with_buf w b)) as [b' Hb'].
    exists b'. by rewrite Hb', with_buf_twice.
  - by exists b.
Qed.

Lemma buf_only_get_logger : buf_only (W := W) get_logger.
Proof. intros w. exists (buf (logger w)). by rewrite with_buf_same. Qed.

Lemma buf_only_set_buf b : buf_only (W := W) (set_buf b).
Proof. intros w. by exists b. Qed.

Lemma buf_only_check {A} (o : option A) : buf_only (W := W) (check o).
Proof. destruct o; [apply buf_only_ret|apply buf_only_panic]. Qed.

Lemma buf_only_if {A} (c : bool) (m1 m2 : M W A) :
  buf_only m1 -> buf_only m2 -> buf_only (if c then m1 else m2).
Proof. by destruct c. Qed.

Hint Resolve buf_only_ret buf_only_panic buf_only_bind buf_only_get_logger
  buf_only_set_buf buf_only_check buf_only_if : scratch.

Lemma buf_only_append p : buf_only (W := W) (append p).
Proof. unfold append. auto with scratch. Qed.

Lemma buf_only_itoa_buf i wid : buf_only (W := W) (itoa_buf i wid).
Proof. unfold itoa_buf. auto 10 with scratch. Qed.

Hint Resolve buf_only_append buf_only_itoa_buf : scratch.

Lemma buf_only_date now : buf_only (W := W) (date now).
Proof. unfold date. auto 40 with scratch. Qed.

Hint Resolve buf_only_date : scratch.

Lemma buf_only_header level now file line :
  buf_only (W := W) (header level now file line).
Proof. unfold header. auto 40 with scratch. Qed.

(** The three ways an unfiltered [Output] ends, whatever its inputs: a
    panic before the write, or the write of the buffer, which ends in the
    message and a newline. *)
Lemma Output_outcome e l s o b mn p f (h : gmap loc W) t :
  mn <= l ->
  exists b1,
    Output e l s (mkWorld (mkLogger o b mn p f) h t)
    = (Panic, mkWorld (mkLogger o b1 mn p f) h (t ++ prologue f ++ [EUnlock]))
    \/ exists k,
        h !! o = Some k /\
        Output e l s (mkWorld (mkLogger o b mn p f) h t)
        = (Ok (snd (snd (Write k (b1 ++ s ++ newline)))),
           mkWorld (mkLogger o (b1 ++ s ++ newline) mn p f)
             (<[o := fst (Write k (b1 ++ s ++ newline))]> h)
             (t ++ prologue f ++ [EWrite o (b1 ++ s ++ newline); EUnlock])).
Proof.
  intros Hge. rewrite Output_unfiltered by done.
  remember (if located f then resolved (Caller e 2) else ([], 0)) as fl eqn:Hfl.
  clear Hfl.
  destruct (buf_only_header l (now e) (fst fl) (snd fl)
              (mkWorld (mkLogger o [] mn p f) h (t ++ prologue f))) as [b1 Hb1].
  destruct (header l (now e) (fst fl) (snd fl)
              (mkWorld (mkLogger o [] mn p f) h (t ++ prologue f)))
    as [r w1] eqn:Hh.
  simpl in Hb1. subst w1. unfold with_buf in Hh.
  cbn [logger heap trace out min pre flag] in Hh.
  unfold defer. destruct r as [[]|].
  - erewrite bind_run by exact Hh.
    erewrite bind_run by apply append_run.
    erewrite bind_run by apply append_run.
    unfold bind, out_Write, emit, ret. cbn [logger heap trace out buf].
    destruct (h !! o) as [k|] eqn:Hk.
    + exists b1. right. exists k. split; [done|].
      rewrite <- (app_assoc b1 s newline).
      destruct (Write k (b1 ++ s ++ newline)) as [k' [n err]].
      cbn [fst snd trace logger heap]. by rewrite <- !app_assoc.
    + exists ((b1 ++ s) ++ newline). left. cbn [trace logger heap].
      by rewrite <- !app_assoc.
  - erewrite bind_panic by exact Hh.
    exists b1. left. unfold emit.
    cbn [logger heap trace]. by rewrite <- !app_assoc.
Qed.
End Scratch.

(** ** What [Output] does on every input *)

Section Always.
Context {W : Type} {W_Writer : Writer W}.
Implicit Types (w : World W) (b : bytes).

(** The events of a call, in its three shapes. *)
Lemma added_Output_shape e l s w :
  (l < min (logger w) /\ added (Output e l s) w = [ENow; ELock; EUnlock])
  \/ (min (logger w) <= l /\ fst (Output e l s w) = Panic /\
      heap (snd (Output e l s w)) = heap w /\
      added (Output e l s) w = prologue (flag (logger w)) ++ [EUnlock])
  \/ (min (logger w) <= l /\
      exists b1 k,
        heap w !! out (logger w) = Some k /\
        fst (Output e l s w) = Ok (snd (snd (Write k (b1 ++ s ++ newline)))) /\
        buf (logger (snd (Output e l s w))) = b1 ++ s ++ newline /\
        heap (snd (Output e l s w))
        = <[out (logger w) := fst (Write k (b1 ++ s ++ newline))]> (heap w) /\
        added (Output e l s) w
        = prologue (flag (logger w))
            ++ [EWrite (out (logger w)) (b1 ++ s ++ newline); EUnlock]).
Proof.
  destruct (Z.lt_ge_cases l (min (logger w))) as [Hlt|Hge].
  - left. split; [done|]. by apply added_Output_filtered.
  - right. destruct w as [[o b mn p f] h t]. cbn [logger min flag out heap] in *.
    destruct (Output_outcome e l s o b mn p f h t Hge) as [b1 [Hrun|[k [Hk Hrun]]]].
    + left. split; [done|]. rewrite Hrun. repeat split.
      apply added_app. by rewrite Hrun.
    + right. split; [done|]. exists b1, k. rewrite Hrun. repeat split; [done|].
      apply added_app. by rewrite Hrun.
Qed.

(** X5. On every input the events of [Output] are, in order: the reading
    of the clock, Lock, then Unlock, the lookup of the caller at depth 2
    and Lock again or none of the three, then one write to its own sink
    or none, and Unlock as the last event. So the lock is taken right
    after the clock is read, held for the write, given up around the
    lookup, never locked twice, and released when the call returns or
    panics. *)
Theorem Output_lock_discipline e l s w :
  exists mid,
    added (Output e l s) w = [ENow; ELock] ++ mid ++ [EUnlock]
    /\ (mid = []
        \/ mid = [EUnlock; ECaller 2; ELock]
        \/ (exists p, mid = [EWrite (out (logger w)) p])
        \/ (exists p, mid = [EUnlock; ECaller 2; ELock; EWrite (out (logger w)) p]))
    /\ lock_after false (added (Output e l s) w) = Some false.
Proof.
  destruct (added_Output_shape e l s w)
    as [[_ ->]|[(_ & _ & _ & ->)|(_ & b1 & k & _ & _ & _ & _ & ->)]].
  - exists []. split; [done|]. split; [by left|done].
  - unfold prologue. destruct (located (flag (logger w))).
    + exists [EUnlock; ECaller 2; ELock]. split; [done|]. split; [|done].
      right. by left.
    + exists []. split; [done|]. split; [by left|done].
  - unfold prologue. destruct (located (flag (logger w))).
    + exists [EUnlock; ECaller 2; ELock; EWrite (out (logger w)) (b1 ++ s ++ newline)].
      split; [done|]. split; [|done]. do 3 right. by eexists.
    + exists [EWrite (out (logger w)) (b1 ++ s ++ newline)].
      split; [done|]. split; [|done]. do 2 right. left. by eexists.
Qed.

(** X6. On every input [Output] asks the run time for the caller once, at
    depth 2, when the record passes the threshold and a path flag is set,
    and not at all otherwise. *)
Theorem Output_caller_lookups e l s w :
  lookups (added (Output e l s) w)
  = (if (min (logger w) <=? l) && located (flag (logger w)) then 1%nat else 0%nat)
  /\ (forall skip, ECaller skip ∈ added (Output e l s) w -> skip = 2).
Proof.
  assert (Hmem : forall skip (t : list event),
             Forall (fun ev => forall k, ev = ECaller k -> k = 2) t ->
             ECaller skip ∈ t -> skip = 2).
  { intros skip t Hall Hin. rewrite Forall_forall in Hall. by eapply Hall. }
  destruct (added_Output_shape e l s w)
    as [[Hlt ->]|[(Hge & _ & _ & ->)|(Hge & b1 & k & _ & _ & _ & _ & ->)]].
  - destruct (Z.leb_spec (min (logger w)) l); [lia|]. split; [done|].
    intros skip. apply Hmem. repeat constructor; congruence.
  - destruct (Z.leb_spec (min (logger w)) l); [|lia].
    unfold prologue. destruct (located (flag (logger w))); simpl;
      (split; [done|]); intros skip; apply Hmem; repeat constructor; congruence.
  - destruct (Z.leb_spec (min (logger w)) l); [|lia].
    unfold prologue. destruct (located (flag (logger w))); simpl;
      (split; [done|]); intros skip; apply Hmem; repeat constructor; congruence.
Qed.

(** X7. On every input [Output] writes to the sink at most once, and only a
    whole record: what is written is the buffer at the end of the call,
    and ends in the message and one newline, the byte 10; a call that
    panics has written nothing, and a call that returns without a write
    was filtered. *)
Theorem Output_writes_whole_records e l s w :
  (writes (added (Output e l s) w) = []
   \/ exists b1,
       writes (added (Output e l s) w) = [b1 ++ s ++ ["010"%char]] /\
       buf (logger (snd (Output e l s w))) = b1 ++ s ++ ["010"%char])
  /\ (fst (Output e l s w) = Panic -> writes (added (Output e l s) w) = [])
  /\ (forall r, fst (Output e l s w) = Ok r ->
        writes (added (Output e l s) w) = [] -> l < min (logger w)).
Proof.
  change ["010"%char] with newline.
  destruct (added_Output_shape e l s w)
    as [[Hlt Hadd]|[(Hge & Hres & _ & Hadd)|(Hge & b1 & k & _ & Hres & Hbuf & _ & Hadd)]];
    rewrite Hadd, ?writes_app, ?writes_prologue; simpl.
  - split; [by left|]. by split.
  - split; [by left|]. split; [done|]. intros r Hr. by rewrite Hres in Hr.
  - split; [right; by exists b1|]. split; [|done].
    intros Hp. by rewrite Hres in Hp.
Qed.

(** X8. On every input [Output] leaves every sink other than its own as it
    was, and its own too unless it writes. *)
Theorem Output_other_sinks e l s w o' :
  (o' <> out (logger w) -> heap (snd (Output e l s w)) !! o' = heap w !! o')
  /\ (writes (added (Output e l s) w) = [] -> heap (snd (Output e l s w)) = heap w).
Proof.
  destruct (added_Output_shape e l s w)
    as [[Hlt Hadd]|[(Hge & _ & Hheap & Hadd)|(Hge & b1 & k & _ & _ & _ & Hheap & Hadd)]].
  - rewrite Output_filtered by done. by split.
  - rewrite Hheap. by split.
  - rewrite Hheap, Hadd, writes_app, writes_prologue. split; [|done].
    intros Hne. by rewrite lookup_insert_ne.
Qed.
End Always.

(** ** The buffer, the sink and the caller across calls *)

Section Across.
Context {W : Type} {W_Writer : Writer W}.
Implicit Types (h : gmap loc W) (t : list event) (b : bytes) (w : World W).

(** X9. An unfiltered [Output] starts from an empty buffer: what it returns,
    writes and leaves behind does not depend on what the buffer held; a
    filtered one leaves the buffer as it was. *)
Theorem Output_resets_buffer e l s o b b' mn p f h t :
  (mn <= l ->
     Output e l s (mkWorld (mkLogger o b mn p f) h t)
     = Output e l s (mkWorld (mkLogger o b' mn p f) h t))
  /\ (l < mn ->
      buf (logger (snd (Output e l s (mkWorld (mkLogger o b mn p f) h t)))) = b).
Proof.
  split.
  - intros Hge. by rewrite !Output_unfiltered.
  - intros Hlt. by rewrite Output_filtered.
Qed.

(** X10. Two records in a row reach the sink as two writes, in order, the
    second on the sink as the first left it; the second line does not
    carry the first, and the buffer ends as the second line. *)
Theorem Output_twice e1 e2 l1 l2 s1 s2 label1 label2 k o b mn p f h t :
  valid_env e1 -> valid_env e2 -> mn <= l1 -> mn <= l2 ->
  index p l1 = Some label1 -> index p l2 = Some label2 -> h !! o = Some k ->
  (Output e1 l1 s1 ;;; Output e2 l2 s2) (mkWorld (mkLogger o b mn p f) h t)
  = (Ok (snd (snd (Write (fst (Write k (record_line label1 (now e1) f (Caller e1 2) s1)))
                     (record_line label2 (now e2) f (Caller e2 2) s2)))),
     mkWorld (mkLogger o (record_line label2 (now e2) f (Caller e2 2) s2) mn p f)
       (<[o := fst (Write (fst (Write k (record_line label1 (now e1) f (Caller e1 2) s1)))
                      (record_line label2 (now e2) f (Caller e2 2) s2))]> h)
       (t ++ (prologue f
                ++ [EWrite o (record_line label1 (now e1) f (Caller e1 2) s1); EUnlock])
          ++ prologue f
          ++ [EWrite o (record_line label2 (now e2) f (Caller e2 2) s2); EUnlock])).
Proof.
  intros He1 He2 Hge1 Hge2 Hlabel1 Hlabel2 Hk.
  erewrite bind_run by (by apply (Output_run e1 l1 s1 label1 k)).
  rewrite (Output_run e2 l2 s2 label2
             (fst (Write k (record_line label1 (now e1) f (Caller e1 2) s1))))
    by (done || apply lookup_insert_eq).
  by rewrite insert_insert_eq, <- !app_assoc.
Qed.

(** X11. With a nil sink an unfiltered record is formatted in full, and the
    call panics at the write: nothing is written, and the lock has been
    released. *)
Theorem Output_nil_sink e l s label o b mn p f h t :
  valid_env e -> mn <= l -> index p l = Some label -> h !! o = None ->
  Output e l s (mkWorld (mkLogger o b mn p f) h t)
  = (Panic,
     mkWorld (mkLogger o (record_line label (now e) f (Caller e 2) s) mn p f) h
       (t ++ prologue f ++ [EUnlock])).
Proof.
  intros He Hge Hlabel Hnil.
  destruct (Output_outcome e l s o b mn p f h t Hge) as [b1 [Hrun|[k [Hk _]]]];
    [|congruence].
  rewrite Hrun. do 3 f_equal.
  (* the buffer is the one [header] and the two appends leave *)
  destruct He as [Hnow Hcaller].
  rewrite Output_unfiltered in Hrun by done.
  set (fl := if located f then resolved (Caller e 2) else ([], 0)) in Hrun.
  assert (Hline : nat_int (snd fl)).
  { unfold fl, resolved. destruct (located f), (Caller e 2); simpl; try done;
      unfold nat_int, int_max; lia. }
  assert (Hloc : location f (Some (fst fl, snd fl)) = location f (Caller e 2)).
  { rewrite <- surjective_pairing. unfold fl.
    destruct (located f) eqn:Hl; [apply location_resolved|].
    unfold location. by rewrite Hl. }
  unfold defer in Hrun.
  erewrite bind_run in Hrun by (by apply header_run).
  erewrite bind_run in Hrun by apply append_run.
  erewrite bind_run in Hrun by apply append_run.
  unfold bind, out_Write, emit in Hrun. cbn [logger heap trace out buf] in Hrun.
  rewrite Hnil, Hloc in Hrun. cbn [logger heap trace] in Hrun.
  injection Hrun as Hb _. rewrite <- Hb. unfold record_line. by flat.
Qed.

(** X12. When the run time cannot tell the caller and a path flag is set, the
    location of the line is [?:0: ], with either flag. *)
Theorem Output_unknown_caller e l s label k w :
  valid_time (now e) -> Caller e 2 = None -> located (flag (logger w)) = true ->
  min (logger w) <= l -> index (pre (logger w)) l = Some label ->
  heap w !! out (logger w) = Some k ->
  writes (added (Output e l s) w)
  = [label ++ str " " ++ timestamp (now e) ++ str " ?:0: " ++ s ++ newline].
Proof.
  intros Hnow Hnone Hloc Hge Hlabel Hk.
  assert (He : valid_env e) by (split; [done|by rewrite Hnone]).
  rewrite (added_Output_run e l s label k) by done.
  rewrite writes_app, writes_prologue. simpl.
  unfold record_line, location. rewrite Hloc, Hnone.
  destruct (shortened (flag (logger w))); by flat.
Qed.

(** X13. A logger made by [New] starts with an empty buffer, and the
    record it writes passes its threshold [minLevel], is located by its
    [flags] and carries the label of the array it was given, or of
    [DefaultLevelStrings] when it was given nil: then the label of each
    of the four severities has five bytes. *)
Theorem New_Output o minLevel flags e l s k :
  (forall labels, buf (New o minLevel flags labels) = [])
  /\ (valid_env e -> minLevel <= l ->
      (forall p label,
          index p l = Some label ->
          writes (added (Output e l s)
                    (mkWorld (New o minLevel flags (Some p)) {[ o := k ]} []))
          = [record_line label (now e) flags (Caller e 2) s])
      /\ (forall label,
            index DefaultLevelStrings l = Some label ->
            writes (added (Output e l s)
                      (mkWorld (New o minLevel flags None) {[ o := k ]} []))
            = [record_line label (now e) flags (Caller e 2) s]
            /\ (LevelDebug <= l <= LevelError -> length label = 5%nat)))
  /\ (l < minLevel ->
      forall labels,
        writes (added (Output e l s)
                  (mkWorld (New o minLevel flags labels) {[ o := k ]} [])) = []).
Proof.
  split; [done|]. split.
  - intros He Hge. split.
    + intros p label Hlabel. unfold New.
      rewrite (added_Output_run e l s label k);
        [|done|done|done|apply lookup_singleton_eq].
      cbn [logger flag out]. by rewrite writes_app, writes_prologue.
    + intros label Hlabel. split.
      * unfold New.
        rewrite (added_Output_run e l s label k);
          [|done|done|done|apply lookup_singleton_eq].
        cbn [logger flag out]. by rewrite writes_app, writes_prologue.
      * intros Hl. unfold LevelDebug, LevelError in Hl.
        assert (l = 0 \/ l = 1 \/ l = 2 \/ l = 3) as Hcases by lia.
        destruct Hcases as [->|[->|[-> | ->]]]; simpl in Hlabel;
          injection Hlabel as <-; done.
  - intros Hlt labels. by rewrite added_Output_filtered.
Qed.

Lemma added_call Sprintf e c w :
  added (call Sprintf e c) w
  = added (Output e (wrapper_level c) (wrapper_text Sprintf c)) w.
Proof.
  unfold added. rewrite call_Output. unfold bind.
  by destruct (Output e (wrapper_level c) (wrapper_text Sprintf c) w) as [[r|] w'].
Qed.

(** X14. A convenience method writes the line [Output] writes for its level
    and its message, and returns; below the threshold it writes nothing
    and leaves the logger and the sinks as they were. *)
Theorem call_writes_record_line Sprintf e c w :
  (forall label k,
      valid_env e -> min (logger w) <= wrapper_level c ->
      index (pre (logger w)) (wrapper_level c) = Some label ->
      heap w !! out (logger w) = Some k ->
      fst (call Sprintf e c w) = Ok tt /\
      writes (added (call Sprintf e c) w)
      = [record_line label (now e) (flag (logger w)) (Caller e 2)
           (wrapper_text Sprintf c)])
  /\ (wrapper_level c < min (logger w) ->
      call Sprintf e c w
      = (Ok tt, mkWorld (logger w) (heap w) (trace w ++ [ENow; ELock; EUnlock]))).
Proof.
  split.
  - intros label k He Hge Hlabel Hk. split.
    + rewrite call_Output.
      destruct w as [[o b mn p f] h t]. cbn [logger min pre heap out flag] in *.
      by erewrite bind_run by (by apply (Output_run e _ _ label k)).
    + rewrite added_call, (added_Output_run e _ _ label k) by done.
      by rewrite writes_app, writes_prologue.
  - intros Hlt. rewrite call_Output.
    by erewrite bind_run by (by apply Output_filtered).
Qed.
End Across.

(** ** The width of the timestamp and the shape of the short path *)

Lemma length_field w n :
  (0 < w)%nat -> 0 <= n < 10 ^ Z.of_nat w -> length (field (Z.of_nat w) n) = w.
Proof. intros Hw Hn. rewrite field_fixed by done. apply length_fixed. Qed.

Lemma calendar_valid_time t :
  calendar t -> Z.abs (offset t) < 360000 -> valid_time t.
Proof.
  intros (Hy & Hmo & Hd & Hh & Hmi & Hs) Hoff.
  unfold valid_time, nat_int, is_int, int_min, int_max. lia.
Qed.

Lemma length_clock_text t : calendar t -> length (clock_text t) = 19%nat.
Proof.
  intros Hcal. rewrite clock_text_fixed by done.
  rewrite !length_app, !length_fixed. done.
Qed.

Lemma length_zone_designator off :
  Z.abs off < 360000 ->
  length (zone_designator off) = if off =? 0 then 1%nat else 6%nat.
Proof.
  intros Hoff. unfold zone_designator.
  destruct (Z.eqb_spec off 0); [done|].
  cbn [length]. rewrite !length_app.
  rewrite (length_field 2), (length_field 2); [done|lia| |lia|].
  - change (10 ^ Z.of_nat 2) with 100.
    pose proof (Z.mod_pos_bound (Z.abs off / 60) 60 ltac:(lia)). lia.
  - change (10 ^ Z.of_nat 2) with 100.
    split; [apply Z.div_pos; lia|]. apply Z.div_lt_upper_bound; lia.
Qed.

(** X3. For a clock reading in the calendar ranges and an offset below a
    hundred hours, [date] appends a timestamp of fixed length: 20 bytes
    at UTC, 25 bytes elsewhere. *)
Theorem date_appends_fixed_length {W : Type} now o b mn p f (h : gmap loc W) t :
  calendar now -> Z.abs (offset now) < 360000 ->
  exists ts,
    date now (mkWorld (mkLogger o b mn p f) h t)
    = (Ok tt, mkWorld (mkLogger o (b ++ ts) mn p f) h t)
    /\ length ts = if offset now =? 0 then 20%nat else 25%nat.
Proof.
  intros Hcal Hoff. exists (timestamp now). split.
  - apply date_run. by apply calendar_valid_time.
  - unfold timestamp.
    rewrite length_app, length_clock_text, length_zone_designator by done.
    by destruct (offset now =? 0).
Qed.

Lemma after_last_sep_None p :
  after_last_sep p = None <-> Forall (fun c => is_sep c = false) p.
Proof.
  induction p as [|c r IH]; simpl.
  - split; [constructor|done].
  - destruct (after_last_sep r) as [t|].
    + split; [done|]. intros Hall. apply Forall_cons in Hall as [_ Hr].
      by apply IH in Hr.
    + destruct (is_sep c) eqn:Hc.
      * split; [done|]. intros Hall. apply Forall_cons in Hall as [Hno _].
        congruence.
      * split; [|done]. intros _. constructor; [done|]. by apply IH.
Qed.

Lemma after_last_sep_Some p t :
  after_last_sep p = Some t ->
  exists before, p = before ++ "/"%char :: t /\ after_last_sep t = None.
Proof.
  revert t. induction p as [|c r IH]; intros t; simpl; [done|].
  destruct (after_last_sep r) as [t'|] eqn:Hr.
  - intros [= <-]. destruct (IH t' eq_refl) as (before & -> & Hnone).
    by exists (c :: before).
  - destruct (is_sep c) eqn:Hc; [|done].
    intros [= <-]. apply Ascii.eqb_eq in Hc as ->. by exists [].
Qed.

(** X4. The path shortening never indexes out of range; what it leaves is a
    suffix of the path with no separator after its first byte, and it is
    the whole path exactly when the path has no separator after its first
    byte. *)
Theorem short_path_final_segment file :
  exists short,
    short_path file = Some short
    /\ short `suffix_of` file
    /\ Forall (fun c => is_sep c = false) (tail short)
    /\ (short = file <-> Forall (fun c => is_sep c = false) (tail file)).
Proof.
  exists (short_name file). split; [apply short_path_spec|].
  unfold short_name. destruct (after_last_sep (tail file)) as [t|] eqn:Hr.
  - destruct (after_last_sep_Some _ _ Hr) as (before & Hfile & Hnone).
    apply after_last_sep_None in Hnone.
    destruct file as [|c r]; [done|]. simpl in Hfile. subst r.
    split; [|split].
    + exists (c :: before ++ ["/"%char]). simpl. by rewrite <- app_assoc.
    + destruct t; [constructor|]. by apply Forall_cons in Hnone as [_ ?].
    + split.
      * intros Heq. apply (f_equal length) in Heq.
        rewrite length_cons, length_app, length_cons in Heq. lia.
      * intros Hall. simpl in Hall, Hr. apply after_last_sep_None in Hall. congruence.
  - split; [done|]. apply after_last_sep_None in Hr. by split.
Qed.

(** ** The further properties at concrete inputs *)

Lemma itoa_round_trip_witness :
  nat_int 42 /\
  exists d,
    itoa (str "x") 42 4 = Some (str "x" ++ d)
    /\ Forall (fun c => is_digit c = true) d
    /\ digits_value d = 42 /\ length d = 4%nat.
Proof.
  assert (Hi : nat_int 42) by concrete.
  split; [exact Hi|].
  destruct (itoa_round_trip (str "x") 42 4 Hi)
    as (d & Hrun & Hdig & Hval & _ & _ & _ & Hlen & _); [concrete|].
  exists d. split; [exact Hrun|]. split; [exact Hdig|]. split; [exact Hval|].
  apply Hlen; [lia|by vm_compute].
Defined.

Lemma itoa_panics_iff_wide_witness :
  is_int 5 /\ is_int 21 /\ itoa [] 5 21 = None
  /\ itoa [] 10 int_min = None
  /\ (itoa [] (-7) 20 = None ->
      20 < 20 \/ (10 <= -7 /\ 20 < int_min + Z.of_nat (length (decimal (-7))) - 1))
  /\ (forall r, itoa [] (-7) 20 = Some r ->
        exists d, r = [] ++ d /\ (1 <= length d <= 20)%nat).
Proof.
  assert (H5 : is_int 5) by concrete.
  assert (H7 : is_int (-7)) by concrete.
  assert (H10 : is_int 10) by concrete.
  assert (H20 : is_int 20) by concrete.
  assert (H21 : is_int 21) by concrete.
  assert (Hmin : is_int int_min) by concrete.
  split; [exact H5|]. split; [exact H21|]. split; [|split; [|split]].
  - apply (itoa_panics_iff_wide [] 5 21 H5 H21). left. lia.
  - apply (itoa_panics_iff_wide [] 10 int_min H10 Hmin). right.
    split; [lia|by vm_compute].
  - apply (itoa_panics_iff_wide [] (-7) 20 H7 H20).
  - apply (itoa_panics_iff_wide [] (-7) 20 H7 H20).
Defined.

Lemma Output_caller_lookups_witness :
  lookups (added (Output (env_at 0 (str "main.go")) LevelError (str "x"))
             (world_of LevelDebug FlagLongPath false)) = 1%nat
  /\ (ECaller 2
        ∈ added (Output (env_at 0 (str "main.go")) LevelError (str "x"))
            (world_of LevelDebug FlagLongPath false) -> 2 = 2).
Proof.
  destruct (Output_caller_lookups (env_at 0 (str "main.go")) LevelError (str "x")
              (world_of LevelDebug FlagLongPath false)) as [Hcount Hskip].
  split; [exact Hcount|]. exact (Hskip 2).
Defined.

Lemma Output_writes_whole_records_witness :
  (exists b1,
      writes (added (Output (env_at 0 (str "main.go")) LevelInfo (str "x"))
                (world_of LevelDebug 0 false))
      = [b1 ++ str "x" ++ ["010"%char]]
      /\ buf (logger (snd (Output (env_at 0 (str "main.go")) LevelInfo (str "x")
                             (world_of LevelDebug 0 false))))
         = b1 ++ str "x" ++ ["010"%char])
  /\ fst (Output (env_at 0 (str "main.go")) 7 (str "x") (world_of LevelDebug 0 false))
     = Panic
  /\ writes (added (Output (env_at 0 (str "main.go")) 7 (str "x"))
               (world_of LevelDebug 0 false)) = [].
Proof.
  split.
  - destruct (Output_writes_whole_records (env_at 0 (str "main.go")) LevelInfo
                (str "x") (world_of LevelDebug 0 false)) as [[Hnone|Hone] _].
    + by vm_compute in Hnone.
    + exact Hone.
  - assert (Hpanic : fst (Output (env_at 0 (str "main.go")) 7 (str "x")
                            (world_of LevelDebug 0 false)) = Panic) by (by vm_compute).
    split; [exact Hpanic|].
    by apply (Output_writes_whole_records (env_at 0 (str "main.go")) 7 (str "x")
                (world_of LevelDebug 0 false)).
Defined.

Lemma Output_other_sinks_witness :
  heap (snd (Output (env_at 0 (str "main.go")) LevelInfo (str "x")
               (mkWorld (New O LevelDebug 0 None)
                  (<[ 1%nat := mkMemSink (str "other") false ]>
                     {[ O := mkMemSink [] false ]}) []))) !! 1%nat
  = Some (mkMemSink (str "other") false)
  /\ heap (snd (Output (env_at 0 (str "main.go")) LevelInfo (str "x")
                  (mkWorld (New O LevelDebug 0 None)
                     (<[ 1%nat := mkMemSink (str "other") false ]>
                        {[ O := mkMemSink [] false ]}) []))) !! O
     = Some (mkMemSink (str "INFO  2024-03-02T15:04:05Z x" ++ ["010"%char]) false)
  /\ heap (snd (Output (env_at 0 (str "main.go")) LevelInfo (str "x")
                  (mkWorld (New O LevelWarn 0 None)
                     (<[ 1%nat := mkMemSink (str "other") false ]>
                        {[ O := mkMemSink [] false ]}) [])))
     = <[ 1%nat := mkMemSink (str "other") false ]> {[ O := mkMemSink [] false ]}.
Proof.
  split; [|split].
  - destruct (Output_other_sinks (env_at 0 (str "main.go")) LevelInfo (str "x")
                (mkWorld (New O LevelDebug 0 None)
                   (<[ 1%nat := mkMemSink (str "other") false ]>
                      {[ O := mkMemSink [] false ]}) []) 1%nat) as [Hother _].
    rewrite Hother by done. by vm_compute.
  - by vm_compute.
  - destruct (Output_other_sinks (env_at 0 (str "main.go")) LevelInfo (str "x")
                (mkWorld (New O LevelWarn 0 None)
                   (<[ 1%nat := mkMemSink (str "other") false ]>
                      {[ O := mkMemSink [] false ]}) []) 1%nat) as [_ Hsame].
    rewrite Hsame; [done|by vm_compute].
Defined.

Lemma Output_resets_buffer_witness :
  LevelDebug <= LevelInfo /\
  Output (env_at 0 (str "main.go")) LevelInfo (str "x")
    (mkWorld (mkLogger O (str "left over") LevelDebug DefaultLevelStrings 0)
       {[ O := mkMemSink [] false ]} [])
  = Output (env_at 0 (str "main.go")) LevelInfo (str "x")
      (mkWorld (mkLogger O [] LevelDebug DefaultLevelStrings 0)
         {[ O := mkMemSink [] false ]} []).
Proof.
  assert (Hge : LevelDebug <= LevelInfo) by concrete.
  split; [exact Hge|].
  by apply (Output_resets_buffer (env_at 0 (str "main.go")) LevelInfo (str "x") O
              (str "left over") [] LevelDebug DefaultLevelStrings 0
              {[ O := mkMemSink [] false ]} []).
Defined.

Lemma Output_twice_witness :
  writes (trace (snd ((Output (env_at 0 (str "main.go")) LevelInfo (str "one") ;;;
                       Output (env_at 3600 (str "main.go")) LevelWarn (str "two"))
                        (world_of LevelDebug 0 false))))
  = [str "INFO  2024-03-02T15:04:05Z one" ++ newline;
     str "WARN  2024-03-02T15:04:05+01:00 two" ++ newline].
Proof.
  unfold world_of, New.
  rewrite (Output_twice (env_at 0 (str "main.go")) (env_at 3600 (str "main.go"))
             LevelInfo LevelWarn (str "one") (str "two") (str "INFO ") (str "WARN ")
             (mkMemSink [] false) O [] LevelDebug DefaultLevelStrings 0
             {[ O := mkMemSink [] false ]} []); [by vm_compute|concrete..].
Defined.

Lemma Output_nil_sink_witness :
  fst (Output (env_at 0 (str "main.go")) LevelInfo (str "x")
         (mkWorld (New O LevelDebug 0 None) (∅ : gmap loc MemSink) []))
  = Panic.
Proof.
  unfold New.
  rewrite (Output_nil_sink (env_at 0 (str "main.go")) LevelInfo (str "x")
             (str "INFO ") O [] LevelDebug DefaultLevelStrings 0 ∅ []);
    [done|concrete..].
Defined.

Lemma Output_unknown_caller_witness :
  writes (added (Output (mkEnv (clock_at 0) (fun _ => None)) LevelInfo (str "x"))
            (world_of LevelDebug FlagLongPath false))
  = [str "INFO  2024-03-02T15:04:05Z ?:0: x" ++ newline].
Proof.
  rewrite (Output_unknown_caller (mkEnv (clock_at 0) (fun _ => None)) LevelInfo
             (str "x") (str "INFO ") (mkMemSink [] false)
             (world_of LevelDebug FlagLongPath false));
    [by vm_compute|concrete..].
Defined.

Lemma New_Output_witness :
  valid_env (env_at 0 (str "main.go")) /\ LevelWarn <= LevelError /\
  writes (added (Output (env_at 0 (str "main.go")) LevelError (str "x"))
            (mkWorld (New 3%nat LevelWarn 0 None) {[ 3%nat := mkMemSink [] false ]} []))
  = [str "ERROR 2024-03-02T15:04:05Z x" ++ ["010"%char]]
  /\ writes (added (Output (env_at 0 (str "main.go")) LevelInfo (str "x"))
               (mkWorld (New 3%nat LevelWarn 0 None) {[ 3%nat := mkMemSink [] false ]} []))
     = [].
Proof.
  assert (He : valid_env (env_at 0 (str "main.go"))) by concrete.
  assert (Hge : LevelWarn <= LevelError) by concrete.
  split; [exact He|]. split; [exact Hge|]. split.
  - destruct (New_Output 3%nat LevelWarn 0 (env_at 0 (str "main.go")) LevelError
                (str "x") (mkMemSink [] false)) as (_ & Hrun & _).
    destruct (Hrun He Hge) as [_ Hdefault].
    destruct (Hdefault (str "ERROR") eq_refl) as [Hline _].
    rewrite Hline. by vm_compute.
  - apply (New_Output 3%nat LevelWarn 0 (env_at 0 (str "main.go")) LevelInfo
             (str "x") (mkMemSink [] false)). concrete.
Defined.

Lemma call_writes_record_line_witness :
  writes (added (call Sprintf_default (env_at 0 (str "main.go"))
                   (WWarnf (str "%d-%s") [VInt 3; VString (str "x")]))
            (world_of LevelDebug 0 false))
  = [str "WARN  2024-03-02T15:04:05Z 3-x" ++ newline]
  /\ call Sprintf_default (env_at 0 (str "main.go")) (WDebug [VString (str "x")])
       (world_of LevelInfo 0 false)
     = (Ok tt,
        mkWorld (logger (world_of LevelInfo 0 false)) (heap (world_of LevelInfo 0 false))
          (trace (world_of LevelInfo 0 false) ++ [ENow; ELock; EUnlock])).
Proof.
  split.
  - destruct (call_writes_record_line Sprintf_default (env_at 0 (str "main.go"))
                (WWarnf (str "%d-%s") [VInt 3; VString (str "x")])
                (world_of LevelDebug 0 false)) as [Hrun _].
    destruct (Hrun (str "WARN ") (mkMemSink [] false)) as [_ Hline]; [concrete..|].
    rewrite Hline. by vm_compute.
  - apply (call_writes_record_line Sprintf_default (env_at 0 (str "main.go"))
             (WDebug [VString (str "x")]) (world_of LevelInfo 0 false)).
    concrete.
Defined.

Lemma date_appends_fixed_length_witness :
  calendar (clock_at (-25200)) /\
  exists ts,
    date (clock_at (-25200)) (world_of LevelDebug 0 false)
    = (Ok tt,
       mkWorld (mkLogger O ([] ++ ts) LevelDebug DefaultLevelStrings 0)
         {[ O := mkMemSink [] false ]} [])
    /\ length ts = 25%nat.
Proof.
  assert (Hcal : calendar (clock_at (-25200))) by concrete.
  split; [exact Hcal|].
  destruct (date_appends_fixed_length (W := MemSink) (clock_at (-25200)) O []
              LevelDebug DefaultLevelStrings 0 {[ O := mkMemSink [] false ]} [] Hcal)
    as (ts & Hrun & Hlen); [concrete|].
  exists ts. by split.
Defined.
